(** * Verification of the knowledge-graph pipeline (usathyan/KG)

    Shallow embedding of [src/src/kg_builder.py], [src/src/ontology_matcher.py],
    [src/src/relation_extractor.py] and [src/src/main.py].

    A Python [str] is a sequence of Unicode code points; it is modelled as
    [list Z].  Python dicts are association lists kept in insertion order,
    as CPython iterates them. *)

From Stdlib Require Import ZArith List Bool Lia QArith String Ascii DecimalString Lqa.
Import ListNotations.
Open Scope Z_scope.

(** ** Python strings *)

(** A Python string literal written with ASCII characters. *)
Definition s2l (s : string) : list Z :=
  map (fun a => Z.of_nat (nat_of_ascii a)) (list_ascii_of_string s).

Fixpoint list_Z_eqb (a b : list Z) : bool :=
  match a, b with
  | [], [] => true
  | x :: a', y :: b' => (x =? y) && list_Z_eqb a' b'
  | _, _ => false
  end.

(** [x in xs] for a Python list of strings. *)
Definition str_in (x : list Z) (xs : list (list Z)) : bool :=
  existsb (list_Z_eqb x) xs.

(** ASCII letters and digits: [str.isalnum] on code points below 128. *)
Definition ascii_alnum (c : Z) : bool :=
  ((48 <=? c) && (c <=? 57)) || ((65 <=? c) && (c <=? 90))
  || ((97 <=? c) && (c <=? 122)).

(** ** [KnowledgeGraphBuilder.sanitize_uri] *)
Module Sanitize.
Section WithUnicode.

(** [str.isalnum] on code points from 128 up: Unicode's letter and number
    categories, a table this development takes as a parameter. *)
Variable unicode_alnum : Z -> bool.

(** [\w] of a [str] pattern in Python's [re]: [str.isalnum()] or underscore. *)
Definition is_word (c : Z) : bool :=
  ascii_alnum c || (c =? 95) || ((128 <=? c) && unicode_alnum c).

(** [re.sub(r'[^\w\-]', '_', value)]: every character outside the class
    [\w] plus hyphen (45) becomes an underscore (95). *)
Definition sub_nonword (s : list Z) : list Z :=
  map (fun c => if is_word c || (c =? 45) then c else 95) s.

(** [re.sub(r'_+', '_', s)]: the scan over the maximal runs of underscores;
    [in_run] says that the previous character was an underscore of the run
    already replaced. *)
Fixpoint sub_runs (in_run : bool) (s : list Z) : list Z :=
  match s with
  | [] => []
  | c :: t =>
      if c =? 95 then
        if in_run then sub_runs true t else 95 :: sub_runs true t
      else c :: sub_runs false t
  end.

End WithUnicode.

(** [str.encode('utf-8')] of one code point (lone surrogates, which Python
    refuses to encode, never reach it below: they are not alphanumeric). *)
Definition utf8_encode_cp (c : Z) : list Z :=
  if c <? 128 then [c]
  else if c <? 2048 then
    [Z.lor 192 (Z.shiftr c 6); Z.lor 128 (Z.land c 63)]
  else if c <? 65536 then
    [Z.lor 224 (Z.shiftr c 12); Z.lor 128 (Z.land (Z.shiftr c 6) 63);
     Z.lor 128 (Z.land c 63)]
  else
    [Z.lor 240 (Z.shiftr c 18); Z.lor 128 (Z.land (Z.shiftr c 12) 63);
     Z.lor 128 (Z.land (Z.shiftr c 6) 63); Z.lor 128 (Z.land c 63)].

(** [urllib.parse._ALWAYS_SAFE]: ASCII letters, digits and [_.-~]. *)
Definition always_safe (b : Z) : bool :=
  ascii_alnum b || (b =? 95) || (b =? 46) || (b =? 45) || (b =? 126).

(** An upper-case hexadecimal digit, as in ['%{:02X}']. *)
Definition hexdig (n : Z) : Z := if n <? 10 then 48 + n else 55 + n.

Definition quote_byte (b : Z) : list Z :=
  if always_safe b then [b]
  else [37; hexdig (Z.shiftr b 4); hexdig (Z.land b 15)].

(** [urllib.parse.quote(s, safe='')]: UTF-8 encode, then percent-encode
    every byte outside [_ALWAYS_SAFE]. *)
Definition quote (s : list Z) : list Z :=
  flat_map quote_byte (flat_map utf8_encode_cp s).

Definition sanitize_uri (unicode_alnum : Z -> bool) (value : list Z) : list Z :=
  quote (sub_runs false (sub_nonword unicode_alnum value)).

(** The Latin-1 part of the Unicode alphanumeric table (code points 128 to
    255 for which [str.isalnum()] holds); nothing above 255. *)
Definition latin1_alnum (c : Z) : bool :=
  (c =? 170) || (c =? 178) || (c =? 179) || (c =? 181) || (c =? 185)
  || (c =? 186) || ((188 <=? c) && (c <=? 190))
  || ((192 <=? c) && (c <=? 255) && negb (c =? 215) && negb (c =? 247)).

End Sanitize.

(** ** The sanitization rule in the words of the specification *)
Module SanitizeSpec.
Import Sanitize.

(** "Collapse consecutive underscores into one": an underscore directly
    followed by an underscore is dropped. *)
Definition collapse_step (c : Z) (acc : list Z) : list Z :=
  match acc with
  | d :: _ => if (c =? 95) && (d =? 95) then acc else c :: acc
  | [] => [c]
  end.

Definition collapse_us (s : list Z) : list Z := fold_right collapse_step [] s.

(** Replace every character that is not alphanumeric or underscore with an
    underscore, collapse, percent-encode. *)
Definition spec_sanitize (ua : Z -> bool) (s : list Z) : list Z :=
  quote (collapse_us (map (fun c => if is_word ua c then c else 95) s)).

(** The same rule with the hyphen kept as well. *)
Definition spec_sanitize_hyphen (ua : Z -> bool) (s : list Z) : list Z :=
  quote (collapse_us (map (fun c => if is_word ua c || (c =? 45) then c else 95) s)).

End SanitizeSpec.

(** ** Python string methods *)

(** [str.isspace]: the Unicode white-space code points. *)
Definition py_isspace (c : Z) : bool :=
  ((9 <=? c) && (c <=? 13)) || ((28 <=? c) && (c <=? 32)) || (c =? 133)
  || (c =? 160) || (c =? 5760) || ((8192 <=? c) && (c <=? 8202))
  || (c =? 8232) || (c =? 8233) || (c =? 8239) || (c =? 8287) || (c =? 12288).

Fixpoint drop_space (s : list Z) : list Z :=
  match s with
  | c :: t => if py_isspace c then drop_space t else s
  | [] => []
  end.

(** [str.strip()]. *)
Definition py_strip (s : list Z) : list Z := rev (drop_space (rev (drop_space s))).

(** The Unicode tables [str.lower()] consults, as parameters: the full
    lower-case mapping of a code point from 128 up (one or more code points:
    U+0130 gives ['i'] and a combining dot U+0307, the Kelvin sign U+212A
    gives ['k']), and the properties [Cased] and [Case_Ignorable] used by
    the final-sigma rule. *)
Record unicode_case := mk_unicode_case {
  lower_full : Z -> list Z;
  is_cased : Z -> bool;
  is_case_ignorable : Z -> bool }.

(** The ASCII part of the mapping. *)
Definition ascii_lower (c : Z) : Z := if (65 <=? c) && (c <=? 90) then c + 32 else c.

(** The first code point of [s] that is not case-ignorable. *)
Fixpoint skip_case_ignorable (uc : unicode_case) (s : list Z) : option Z :=
  match s with
  | [] => None
  | c :: t => if is_case_ignorable uc c then skip_case_ignorable uc t else Some c
  end.

(** [handle_capital_sigma]: ['Σ'] is final when a cased letter precedes it
    and none follows it, case-ignorable code points skipped on both sides;
    [before] is the text before it, nearest code point first. *)
Definition final_sigma (uc : unicode_case) (before after : list Z) : bool :=
  match skip_case_ignorable uc before with
  | Some c =>
      is_cased uc c &&
      match skip_case_ignorable uc after with
      | Some d => negb (is_cased uc d)
      | None => true
      end
  | None => false
  end.

(** [lower_ucs4]: the lower-case form of the code point [c] between
    [before] and [after]; U+03A3 becomes ['ς'] (U+03C2) or ['σ'] (U+03C3). *)
Definition lower_ucs4 (uc : unicode_case) (before : list Z) (c : Z) (after : list Z)
  : list Z :=
  if c <? 128 then [ascii_lower c]
  else if c =? 931 then (if final_sigma uc before after then [962] else [963])
  else lower_full uc c.

Fixpoint lower_from (uc : unicode_case) (before s : list Z) : list Z :=
  match s with
  | [] => []
  | c :: t => lower_ucs4 uc before c t ++ lower_from uc (c :: before) t
  end.

(** [str.lower()] ([do_lower] of CPython). *)
Definition py_lower (uc : unicode_case) (s : list Z) : list Z := lower_from uc [] s.

(** Lower-case output is stable: a code point produced by the mapping is
    not ['Σ'] and maps to itself.  Unicode's tables have this property (for
    every code point [c], every code point of [chr(c).lower()] is its own
    lower-case form). *)
Definition lower_stable (uc : unicode_case) : Prop :=
  lower_full uc 962 = [962] /\ lower_full uc 963 = [963] /\
  forall c d, 128 <= c -> c <> 931 -> In d (lower_full uc c) ->
    d <> 931 /\ (d < 128 -> ascii_lower d = d) /\ (128 <= d -> lower_full uc d = [d]).

(** A sample of the case tables: Latin-1 capitals [À-Þ] (but [×]) and the
    basic Greek capitals map 32 code points up, the dotted capital I and the
    Kelvin sign as in Unicode; every other code point from 128 up maps to
    itself. *)
Definition sample_lower_full (c : Z) : list Z :=
  if ((192 <=? c) && (c <=? 222) && negb (c =? 215))
     || ((913 <=? c) && (c <=? 937) && negb (c =? 930) && negb (c =? 931))
  then [c + 32]
  else if c =? 304 then [105; 775]
  else if c =? 8490 then [107]
  else [c].

Definition sample_case : unicode_case :=
  mk_unicode_case sample_lower_full
    (fun c => ((65 <=? c) && (c <=? 90)) || ((97 <=? c) && (c <=? 122))
              || ((192 <=? c) && (c <=? 255) && negb (c =? 215) && negb (c =? 247))
              || ((913 <=? c) && (c <=? 969)))
    (fun c => (c =? 39) || (c =? 46) || (c =? 58) || (c =? 94) || (c =? 96)
              || (c =? 183) || (c =? 775)).

(** [p in s] for two strings: [p] is a contiguous substring of [s]. *)
Fixpoint prefixb (p s : list Z) : bool :=
  match p, s with
  | [], _ => true
  | x :: p', y :: s' => (x =? y) && prefixb p' s'
  | _ :: _, [] => false
  end.

Fixpoint substrb (p s : list Z) : bool :=
  prefixb p s || match s with [] => false | _ :: s' => substrb p s' end.

(** ** Python dicts [Dict[str, str]] *)

Definition dict := list (list Z * list Z).

Fixpoint dict_get (d : dict) (k : list Z) : option (list Z) :=
  match d with
  | [] => None
  | (k', v) :: d' => if list_Z_eqb k k' then Some v else dict_get d' k
  end.

(** [d.get(k, default)]. *)
Definition dict_get_default (d : dict) (k dflt : list Z) : list Z :=
  match dict_get d k with Some v => v | None => dflt end.

(** [d[k] = v]: an existing key keeps its place, a new key goes last. *)
Fixpoint dict_set {V} (d : list (list Z * V)) (k : list Z) (v : V) : list (list Z * V) :=
  match d with
  | [] => [(k, v)]
  | (k', v') :: d' => if list_Z_eqb k k' then (k, v) :: d' else (k', v') :: dict_set d' k v
  end.

(** ** [difflib.SequenceMatcher.ratio] *)

(** [_calculate_ratio(matches, len(a) + len(b))], where [matches] is the
    total size of [get_matching_blocks()]; the matching-block algorithm is
    the parameter [matching_chars].  Floats are modelled by rationals. *)
Definition difflib_ratio (matching_chars : list Z -> list Z -> nat) (a b : list Z) : Q :=
  let len := (List.length a + List.length b)%nat in
  if Nat.eqb len 0 then 1%Q
  else (Z.of_nat (2 * matching_chars a b) # Pos.of_nat len)%Q.

(** ** [OntologyMatcher] *)
Module Ontology.

Definition semantic_equivalence : list (list Z * list (list Z)) :=
  [ (s2l "birth", map s2l ["born"; "date of birth"; "birthdate"]%string);
    (s2l "death", map s2l ["died"; "date of death"; "deathdate"]%string);
    (s2l "citizenship", map s2l ["nationality"; "country of citizenship"; "origin"]%string);
    (s2l "occupation", map s2l ["profession"; "job"; "career"]%string);
    (s2l "work", map s2l ["creation"; "notable work"; "achievement"]%string) ].

Section Matcher.
Variable uc : unicode_case.
Variable matching_chars : list Z -> list Z -> nat.
Variable similarity_threshold : Q.

Definition is_semantically_similar (property1 property2 : list Z) : bool :=
  let prop1 := py_strip (py_lower uc property1) in
  let prop2 := py_strip (py_lower uc property2) in
  if list_Z_eqb prop1 prop2 then true
  else if existsb (fun grp => str_in prop1 (snd grp) && str_in prop2 (snd grp))
            semantic_equivalence then true
  else Qle_bool similarity_threshold (difflib_ratio matching_chars prop1 prop2).

(** The inner loop of [generate_ontology_mapping] for one source property:
    [best] is [(best_match, best_similarity)]. *)
Fixpoint best_target (src : list Z) (targets : list (list Z))
         (best : option (list Z) * Q) : option (list Z) * Q :=
  match targets with
  | [] => best
  | tgt :: ts =>
      let similarity := difflib_ratio matching_chars (py_lower uc src) (py_lower uc tgt) in
      if Qlt_le_dec (snd best) similarity then
        if Qle_bool similarity_threshold similarity
        then best_target src ts (Some tgt, similarity)
        else best_target src ts best
      else best_target src ts best
  end.

(** Python truthiness of [best_match]: [None] and [''] are false. *)
Definition truthy (o : option (list Z)) : bool :=
  match o with Some (_ :: _) => true | _ => false end.

Fixpoint mapping_loop (sources targets : list (list Z)) (m : list (list Z * list Z))
  : list (list Z * list Z) :=
  match sources with
  | [] => m
  | src :: ss =>
      let best := fst (best_target src targets (None, 0%Q)) in
      match best with
      | Some b => if truthy best then mapping_loop ss targets (dict_set m src b)
                  else mapping_loop ss targets m
      | None => mapping_loop ss targets m
      end
  end.

Definition generate_ontology_mapping (source_properties target_ontology : list (list Z))
  : list (list Z * list Z) :=
  mapping_loop source_properties target_ontology [].

End Matcher.
End Ontology.

(** ** [OntologyMatcher.match_relations] over a heap of dict objects

    The records passed to [match_relations] are Python dict objects: a heap
    maps locations to dicts, and a Python list of records is a list of
    locations.  [relation.copy()] allocates a fresh location. *)
Module MatchHeap.
Import Ontology.

Definition loc := nat.
Definition heap := list dict.

(** [h[l] = v] on an allocated location. *)
Fixpoint heap_store (h : heap) (l : loc) (v : dict) : heap :=
  match h, l with
  | [], _ => []
  | _ :: h', O => v :: h'
  | d :: h', S l' => d :: heap_store h' l' v
  end.

(** The inner [for semantic_group, variants in ...items()] loop with its
    [break]: the first group listing [r] among its variants. *)
Fixpoint first_group (groups : list (list Z * list (list Z))) (r : list Z)
  : option (list Z) :=
  match groups with
  | [] => None
  | (g, variants) :: gs => if str_in r variants then Some g else first_group gs r
  end.

(** One iteration of the outer loop; [None] is a raised exception (an
    unallocated location, or [KeyError] for a record without ['relation']). *)
Definition match_one (h : heap) (l : loc) : option (heap * loc) :=
  match nth_error h l with
  | None => None
  | Some relation =>
      let nl := List.length h in
      let h1 := h ++ [relation] in
      match dict_get relation (s2l "relation") with
      | None => None
      | Some r =>
          match first_group semantic_equivalence r with
          | Some g => Some (heap_store h1 nl (dict_set relation (s2l "relation") g), nl)
          | None => Some (h1, nl)
          end
      end
  end.

Fixpoint match_loop (h : heap) (relations : list loc) (matched : list loc)
  : option (heap * list loc) :=
  match relations with
  | [] => Some (h, matched)
  | l :: ls =>
      match match_one h l with
      | None => None
      | Some (h', nl) => match_loop h' ls (matched ++ [nl])
      end
  end.

Definition match_relations (h : heap) (relations : list loc) : option (heap * list loc) :=
  match_loop h relations [].

(** What the specification asks of one record: the relation rewritten to
    the canonical name of the first group (in declaration order) having it
    as a variant, the record unchanged otherwise. *)
Definition refine_record (d : dict) : dict :=
  match dict_get d (s2l "relation") with
  | Some r =>
      match first_group semantic_equivalence r with
      | Some g => dict_set d (s2l "relation") g
      | None => d
      end
  | None => d
  end.

End MatchHeap.

(** ** [RelationExtractor] *)
Module Extractor.

Definition details := dict.

Record extractor := mk_extractor {
  standard_relations : list (list Z * details);
  custom_relations : list (list Z * details);
  all_relations : list (list Z * details) }.

Definition std_details (desc dom rng : string) : details :=
  [(s2l "description", s2l desc); (s2l "domain", s2l dom); (s2l "range", s2l rng)].

Definition standard_table : list (list Z * details) :=
  [ (s2l "date of birth",
       std_details "The date on which the subject was born" "Person" "Date");
    (s2l "date of death",
       std_details "The date on which the subject died" "Person" "Date");
    (s2l "occupation", std_details "The occupation of a person" "Person" "Occupation");
    (s2l "country of citizenship",
       std_details "The country of which the subject is a citizen" "Person" "Country");
    (s2l "notable work",
       std_details "The most notable work of a person" "Person" "Creative Work") ]%string.

(** [{**standard_relations, **custom_relations}]. *)
Definition merge (a b : list (list Z * details)) : list (list Z * details) :=
  fold_left (fun acc kv => dict_set acc (fst kv) (snd kv)) b a.

(** [__init__], with the custom table already read from the JSON file
    ([{}] when there is none or it cannot be read). *)
Definition init (custom : list (list Z * details)) : extractor :=
  mk_extractor standard_table custom (merge standard_table custom).

Fixpoint lookup_table (t : list (list Z * details)) (k : list Z) : option details :=
  match t with
  | [] => None
  | (k', v) :: t' => if list_Z_eqb k k' then Some v else lookup_table t' k
  end.

(** The loop of [extract_relations] over the lowercased text; [None] is the
    [KeyError] of [details['description']]. *)
Fixpoint extract_loop (table : list (list Z * details)) (text : list Z) : option (list dict) :=
  match table with
  | [] => Some []
  | (relation, det) :: t =>
      if substrb relation text then
        match dict_get det (s2l "description") with
        | None => None
        | Some desc =>
            match extract_loop t text with
            | None => None
            | Some rest =>
                Some ([(s2l "relation", relation); (s2l "description", desc);
                       (s2l "domain", dict_get_default det (s2l "domain") (s2l "Unknown"));
                       (s2l "range", dict_get_default det (s2l "range") (s2l "Unknown"))]
                      :: rest)
            end
        end
      else extract_loop t text
  end.

Definition extract_relations (uc : unicode_case) (st : extractor) (text : list Z)
  : option (list dict) :=
  extract_loop (all_relations st) (py_lower uc text).

(** [add_custom_relation]: [if key:] is false for a missing key and for ['']. *)
Definition add_custom_relation (st : extractor) (relation : dict) : extractor :=
  match dict_get relation (s2l "relation") with
  | Some ((_ :: _) as key) =>
      let det := [(s2l "description", dict_get_default relation (s2l "description") []);
                  (s2l "domain", dict_get_default relation (s2l "domain") (s2l "Unknown"));
                  (s2l "range", dict_get_default relation (s2l "range") (s2l "Unknown"))] in
      mk_extractor (standard_relations st) (dict_set (custom_relations st) key det)
                   (dict_set (all_relations st) key det)
  | _ => st
  end.

End Extractor.

(** ** [KnowledgeGraphBuilder.build_knowledge_graph] *)
Module KG.

Inductive term :=
| URIRef (u : list Z)
| Literal (lex : list Z) (lang : option (list Z)).

Definition option_eqb (a b : option (list Z)) : bool :=
  match a, b with
  | Some x, Some y => list_Z_eqb x y
  | None, None => true
  | _, _ => false
  end.

Definition term_eqb (a b : term) : bool :=
  match a, b with
  | URIRef x, URIRef y => list_Z_eqb x y
  | Literal x l, Literal y m => list_Z_eqb x y && option_eqb l m
  | _, _ => false
  end.

Definition triple : Type := term * term * term.

Definition triple_eqb (t u : triple) : bool :=
  match t, u with
  | (s, p, o), (s', p', o') => term_eqb s s' && term_eqb p p' && term_eqb o o'
  end.

(** An rdflib [Graph]: a set of triples; [g.add] of a present triple leaves
    it as it is. *)
Definition graph := list triple.

Definition graph_add (g : graph) (t : triple) : graph :=
  if existsb (triple_eqb t) g then g else g ++ [t].

Definition WD : list Z := s2l "http://www.wikidata.org/entity/".
Definition WDT : list Z := s2l "http://www.wikidata.org/prop/direct/".
Definition SCHEMA : list Z := s2l "http://schema.org/".
Definition RDF_type : term := URIRef (s2l "http://www.w3.org/1999/02/22-rdf-syntax-ns#type").
Definition RDFS_label : term := URIRef (s2l "http://www.w3.org/2000/01/rdf-schema#label").
Definition RDFS_comment : term := URIRef (s2l "http://www.w3.org/2000/01/rdf-schema#comment").
Definition en : option (list Z) := Some (s2l "en").

(** [str(idx)] for a positive index. *)
Definition py_str_int (n : nat) : list Z :=
  s2l (NilEmpty.string_of_uint (Nat.to_uint n)).

Definition doc_uri : term := URIRef (WD ++ s2l "Document").

Fixpoint add_entities (ua : Z -> bool) (g : graph) (entities : list (list Z * list Z)) : graph :=
  match entities with
  | [] => g
  | (text, label) :: es =>
      let entity_uri := URIRef (WD ++ Sanitize.sanitize_uri ua text) in
      let g1 := graph_add g (entity_uri, RDF_type, URIRef (SCHEMA ++ label)) in
      let g2 := graph_add g1 (entity_uri, RDFS_label, Literal text en) in
      let g3 := graph_add g2 (doc_uri, URIRef (SCHEMA ++ s2l "mentions"), entity_uri) in
      add_entities ua g3 es
  end.

(** [None] is the [KeyError] of a record without ['relation'] or
    ['description']. *)
Fixpoint add_relations (ua : Z -> bool) (g : graph) (relations : list dict) : option graph :=
  match relations with
  | [] => Some g
  | relation :: rs =>
      match dict_get relation (s2l "relation") with
      | None => None
      | Some rel =>
          let relation_uri := URIRef (WDT ++ Sanitize.sanitize_uri ua rel) in
          let g1 := graph_add g (relation_uri, RDF_type, URIRef (SCHEMA ++ s2l "Property")) in
          let g2 := graph_add g1 (relation_uri, RDFS_label, Literal rel None) in
          match dict_get relation (s2l "description") with
          | None => None
          | Some desc =>
              add_relations ua (graph_add g2 (relation_uri, RDFS_comment, Literal desc None)) rs
          end
      end
  end.

(** [for idx, question in enumerate(competency_questions, 1)]. *)
Fixpoint add_questions (g : graph) (idx : nat) (questions : list (list Z)) : graph :=
  match questions with
  | [] => g
  | q :: qs =>
      let question_uri := URIRef (WD ++ s2l "CompetencyQuestion_" ++ py_str_int idx) in
      let g1 := graph_add g (question_uri, RDF_type, URIRef (SCHEMA ++ s2l "Question")) in
      let g2 := graph_add g1 (question_uri, RDFS_label, Literal q en) in
      let g3 := graph_add g2 (doc_uri, URIRef (SCHEMA ++ s2l "hasPart"), question_uri) in
      add_questions g3 (S idx) qs
  end.

(** The graph [build_knowledge_graph] serializes; [entities] is what
    [extract_entities(text)] returns (spaCy's [(ent.text, ent.label_)]).
    The Turtle serializer of rdflib is not modelled. *)
Definition build_graph (ua : Z -> bool) (entities : list (list Z * list Z))
           (relations : list dict) (competency_questions : list (list Z)) : option graph :=
  let g0 := graph_add [] (doc_uri, RDF_type, URIRef (SCHEMA ++ s2l "CreativeWork")) in
  let g1 := graph_add g0 (doc_uri, RDFS_label, Literal (s2l "Source Document") en) in
  let g2 := add_entities ua g1 entities in
  match add_relations ua g2 relations with
  | None => None
  | Some g3 => Some (add_questions g3 1 competency_questions)
  end.

End KG.

(** ** [KnowledgeGraphOrchestrator.generate_knowledge_graph] and the CLI

    The collaborators outside the core (textract, the competency-question
    generator and spaCy's entity recognizer) are parameters.  A run is
    observed through the trace of the pipeline stages it executed. *)
Module Pipeline.

Inductive stage := ExtractText | GenerateQuestions | ExtractRelations
                 | MatchRelations | BuildGraph.

Inductive error := ExtractionFailure | KeyError | UnsupportedFormat.

Fixpoint deref (h : MatchHeap.heap) (ls : list MatchHeap.loc) : option (list dict) :=
  match ls with
  | [] => Some []
  | l :: ls' =>
      match nth_error h l, deref h ls' with
      | Some d, Some ds => Some (d :: ds)
      | _, _ => None
      end
  end.

(** [p.rfind(c)]: the index of the last [c] in [p], or -1. *)
Fixpoint rfind (c : Z) (p : list Z) : Z :=
  match p with
  | [] => -1
  | x :: t =>
      let i := rfind c t in
      if 0 <=? i then i + 1 else if x =? c then 0 else -1
  end.

(** [os.path.splitext] ([posixpath._splitext] with [sep = '/'] and
    [extsep = '.']): split at the last dot after the last slash, unless
    only dots precede it in the file name. *)
Definition splitext (p : list Z) : list Z * list Z :=
  let sepIndex := rfind 47 p in
  let dotIndex := rfind 46 p in
  if sepIndex <? dotIndex then
    let name_head := firstn (Z.to_nat (dotIndex - (sepIndex + 1)))
                            (skipn (Z.to_nat (sepIndex + 1)) p) in
    if existsb (fun c => negb (c =? 46)) name_head
    then (firstn (Z.to_nat dotIndex) p, skipn (Z.to_nat dotIndex) p)
    else (p, [])
  else (p, []).

(** [f"{os.path.splitext(args.input_file)[0]}.ttl"]. *)
Definition output_filename (input_file : list Z) : list Z :=
  fst (splitext input_file) ++ s2l ".ttl".

Section Collaborators.
Variable textract_process : list Z -> option (list Z).
Variable generate_questions : list Z -> Z -> list (list Z).
Variable extract_entities : list Z -> list (list Z * list Z).
Variable unicode_alnum : Z -> bool.
Variable uc : unicode_case.
(** [KnowledgeGraphOrchestrator()] completes (loading the spaCy model may
    raise, outside the [try] of [main()]). *)
Variable orchestrator_ok : bool.
(** [open(output_filename, 'w')] and [f.write(kg)] of the serialized graph
    both succeed. *)
Variable write_file : list Z -> KG.graph -> bool.

Definition generate_knowledge_graph (st : Extractor.extractor) (doc_path : list Z)
           (max_questions : Z) (output_format : list Z)
  : list stage * (error + KG.graph) :=
  match textract_process doc_path with
  | None => ([ExtractText], inl ExtractionFailure)
  | Some text =>
      let competency_questions := generate_questions text max_questions in
      match Extractor.extract_relations uc st text with
      | None => ([ExtractText; GenerateQuestions; ExtractRelations], inl KeyError)
      | Some relations =>
          (* the extracted records are fresh dicts at locations 0 .. n-1 *)
          let matched :=
            match MatchHeap.match_relations relations (seq 0 (List.length relations)) with
            | Some (h, ls) => deref h ls
            | None => None
            end in
          match matched with
          | None => ([ExtractText; GenerateQuestions; ExtractRelations; MatchRelations],
                     inl KeyError)
          | Some matched_relations =>
              let tr := [ExtractText; GenerateQuestions; ExtractRelations;
                         MatchRelations; BuildGraph] in
              match KG.build_graph unicode_alnum (extract_entities text)
                                   matched_relations competency_questions with
              | None => (tr, inl KeyError)
              | Some kg =>
                  if negb (list_Z_eqb (py_lower uc output_format) (s2l "turtle"))
                  then (tr, inl UnsupportedFormat)
                  else (tr, inr kg)
              end
          end
      end
  end.

(** [main()] with its arguments parsed: argparse rejects an
    [--output-format] outside [choices=['turtle']] with exit status 2 before
    anything else runs; an exception of [KnowledgeGraphOrchestrator()] is
    not caught and ends the interpreter with status 1; in the [try], an
    exception of the pipeline or of writing [<base>.ttl] gives [sys.exit(1)];
    otherwise [main()] returns and the status is 0. *)
Definition cli_main (st : Extractor.extractor) (input_file : list Z)
           (max_questions : Z) (output_format : list Z) : list stage * Z :=
  if negb (str_in output_format [s2l "turtle"]) then ([], 2)
  else if negb orchestrator_ok then ([], 1)
  else
    let (tr, res) := generate_knowledge_graph st input_file max_questions output_format in
    match res with
    | inl _ => (tr, 1)
    | inr kg => if write_file (output_filename input_file) kg then (tr, 0) else (tr, 1)
    end.

End Collaborators.
End Pipeline.

(** ** [CompetencyQuestionGenerator.generate_questions]

    [doc.ents] of spaCy is the input: a list of [(ent.text, ent.label_)]. *)
Module CQ.

Definition question_types : list (list Z) := map s2l ["PERSON"; "ORG"; "GPE"; "DATE"]%string.

(** [f"What is the {entity_type.lower()} of {entity}?"]. *)
Definition question (uc : unicode_case) (entity entity_type : list Z) : list Z :=
  s2l "What is the " ++ py_lower uc entity_type ++ s2l " of " ++ entity ++ s2l "?".

Fixpoint questions_of (uc : unicode_case) (entities : list (list Z * list Z))
  : list (list Z) :=
  match entities with
  | [] => []
  | (entity, entity_type) :: es =>
      if str_in entity_type question_types
      then question uc entity entity_type :: questions_of uc es
      else questions_of uc es
  end.

(** Python's [l[:n]]: a negative [n] counts from the end. *)
Definition py_slice_to {A} (l : list A) (n : Z) : list A :=
  if 0 <=? n then firstn (Z.to_nat n) l
  else firstn (Z.to_nat (Z.of_nat (List.length l) + n)) l.

Definition generate_questions (uc : unicode_case) (entities : list (list Z * list Z))
           (max_questions : Z) : list (list Z) :=
  py_slice_to (questions_of uc entities) max_questions.

End CQ.

(** ** [clean_uri] of [src/visualize_kg.py] *)
Module Visualize.
Import Sanitize.

Definition wd_prefix : list Z := s2l "http://www.wikidata.org/entity/".

(** [re.sub(r'^<?(http://www\.wikidata\.org/entity/)?', '', s)]: the
    pattern only matches at the start, taking a ['<'] if there is one and
    then the prefix if it follows. *)
Definition sub_head (s : list Z) : list Z :=
  let s1 := match s with c :: t => if c =? 60 then t else s | [] => [] end in
  if prefixb wd_prefix s1 then skipn (List.length wd_prefix) s1 else s1.

(** [re.sub(r'>?$', '', s)]: [$] matches at the end and before a final
    newline, so a ['>'] is removed when it is the last character or comes
    just before a final newline. *)
Definition sub_tail (s : list Z) : list Z :=
  match rev s with
  | c :: r => if c =? 62 then rev r
              else if c =? 10 then
                     match r with
                     | d :: r' => if d =? 62 then rev (10 :: r') else s
                     | [] => s
                     end
                   else s
  | [] => []
  end.

(** [uri.replace('_', ' ')]. *)
Definition replace_us (s : list Z) : list Z := map (fun c => if c =? 95 then 32 else c) s.

(** [re.sub(r'[^\w\s]', '', uri)]. *)
Definition keep_word_space (ua : Z -> bool) (s : list Z) : list Z :=
  filter (fun c => is_word ua c || py_isspace c) s.

Definition clean_uri (ua : Z -> bool) (uri : list Z) : list Z :=
  py_strip (keep_word_space ua (replace_us (sub_tail (sub_head uri)))).

End Visualize.

Lemma list_Z_eqb_eq : forall a b, list_Z_eqb a b = true <-> a = b.
Proof.
  induction a as [|x a IH]; destruct b as [|y b]; simpl; split; intro H;
    try discriminate; auto.
  - apply andb_prop in H as [H1 H2]. apply Z.eqb_eq in H1.
    apply IH in H2. subst. reflexivity.
  - injection H as -> ->. rewrite Z.eqb_refl. simpl. apply IH. reflexivity.
Qed.

(** * Properties *)

(** ** Sanitizer *)
Module SanitizeProofs.
Import Sanitize SanitizeSpec.

Example sanitize_20pct : sanitize_uri latin1_alnum (s2l "20%") = s2l "20_".
Proof. reflexivity. Qed.

Lemma sub_runs_collapse : forall s,
  sub_runs false s = collapse_us s /\
  sub_runs true s = match collapse_us s with
                    | d :: r => if d =? 95 then r else d :: r
                    | [] => [] end.
Proof.
  induction s as [|c t [IH1 IH2]]; [split; reflexivity|].
  simpl. rewrite IH1, IH2. unfold collapse_step.
  destruct (c =? 95) eqn:Ec.
  - apply Z.eqb_eq in Ec. subst c.
    destruct (collapse_us t) as [|d r]; simpl; [split; reflexivity|].
    destruct (d =? 95) eqn:Ed; simpl; [|split; reflexivity].
    apply Z.eqb_eq in Ed. subst d. split; reflexivity.
  - destruct (collapse_us t) as [|d r]; simpl; rewrite ?Ec; simpl;
      split; reflexivity.
Qed.

Lemma sub_runs_idem : forall b s, sub_runs b (sub_runs b s) = sub_runs b s.
Proof.
  intros b s. revert b. induction s as [|c t IH]; intro b; [reflexivity|].
  simpl. destruct (c =? 95) eqn:Ec.
  - destruct b.
    + apply IH.
    + simpl. f_equal. apply IH.
  - simpl. rewrite Ec. f_equal. apply IH.
Qed.

(** Characters that [sanitize_uri] leaves in place and [quote] keeps. *)
Definition plain (c : Z) : bool := ascii_alnum c || (c =? 95) || (c =? 45).

Lemma plain_quote_byte : forall c, plain c = true ->
  flat_map quote_byte (utf8_encode_cp c) = [c].
Proof.
  intros c H. unfold plain, ascii_alnum in H.
  assert (Hc : (c <? 128) = true).
  { apply Z.ltb_lt. repeat (apply orb_prop in H as [H|H]);
      repeat match goal with H : (_ && _) = true |- _ => apply andb_prop in H as [? ?] end;
      rewrite ?Z.leb_le, ?Z.eqb_eq in *; lia. }
  unfold utf8_encode_cp. rewrite Hc. simpl. unfold quote_byte, always_safe.
  replace (ascii_alnum c || (c =? 95) || (c =? 46) || (c =? 45) || (c =? 126)) with true.
  - reflexivity.
  - unfold ascii_alnum. repeat (apply orb_prop in H as [H|H]); rewrite H;
      rewrite ?orb_true_r; reflexivity.
Qed.

Lemma quote_plain : forall s, forallb plain s = true -> quote s = s.
Proof.
  induction s as [|c t IH]; intro H; [reflexivity|].
  simpl in H. apply andb_prop in H as [H1 H2].
  unfold quote in *. simpl. rewrite flat_map_app, plain_quote_byte by exact H1.
  simpl. f_equal. apply IH, H2.
Qed.

Lemma sub_runs_plain : forall b s, forallb plain s = true -> forallb plain (sub_runs b s) = true.
Proof.
  intros b s. revert b. induction s as [|c t IH]; intros b H; [reflexivity|].
  simpl in H. apply andb_prop in H as [H1 H2]. simpl.
  destruct (c =? 95) eqn:Ec; [destruct b|]; simpl; rewrite ?H1, ?IH by exact H2;
    reflexivity.
Qed.

Lemma sub_nonword_plain : forall ua s,
  (forall c, In c s -> 128 <= c -> ua c = false) ->
  forallb plain (sub_nonword ua s) = true.
Proof.
  intros ua s H. unfold sub_nonword. rewrite forallb_forall. intros x Hx.
  apply in_map_iff in Hx as [c [<- Hc]].
  destruct (is_word ua c || (c =? 45)) eqn:E; [|reflexivity].
  unfold plain. unfold is_word in E.
  destruct (ascii_alnum c) eqn:A; [reflexivity|].
  destruct (c =? 95) eqn:U; [reflexivity|].
  destruct (c =? 45) eqn:M; [rewrite !orb_true_r; reflexivity|].
  simpl in E. rewrite orb_false_r in E. apply andb_prop in E as [E1 E2].
  apply Z.leb_le in E1. rewrite (H c Hc E1) in E2. discriminate.
Qed.

Lemma sub_nonword_id : forall ua s, forallb plain s = true -> sub_nonword ua s = s.
Proof.
  intros ua s. induction s as [|c t IH]; intro H; [reflexivity|].
  simpl in H. apply andb_prop in H as [H1 H2]. unfold sub_nonword in *. simpl.
  rewrite IH by exact H2. f_equal.
  unfold plain in H1. unfold is_word.
  destruct (ascii_alnum c); [reflexivity|].
  destruct (c =? 95); [reflexivity|]. simpl in H1. rewrite H1, orb_true_r. reflexivity.
Qed.

(** Claim C1, counterexample: on ["a-b"] the code keeps the hyphen
    (its class is [[^\w\-]]), while the rule "replace every character that
    is not alphanumeric or underscore" gives ["a_b"]. *)
Lemma C1_sanitize_keeps_hyphen :
  sanitize_uri latin1_alnum (s2l "a-b") = s2l "a-b" /\
  spec_sanitize latin1_alnum (s2l "a-b") = s2l "a_b" /\
  sanitize_uri latin1_alnum (s2l "a-b") <> spec_sanitize latin1_alnum (s2l "a-b").
Proof. split; [reflexivity|split; [reflexivity|discriminate]]. Qed.

(** Claim C1 (amended): for every Unicode table and every string,
    [sanitize_uri] replaces every character that is neither alphanumeric,
    underscore nor hyphen with an underscore, collapses consecutive
    underscores into one and percent-encodes the result. *)
Theorem C1_sanitize_uri_rule : forall ua x,
  sanitize_uri ua x = spec_sanitize_hyphen ua x.
Proof.
  intros ua x. unfold sanitize_uri, spec_sanitize_hyphen, sub_nonword.
  f_equal. apply sub_runs_collapse.
Qed.

(** Claim C2, counterexample: ["é"] is a word character; it is
    percent-encoded to ["%C3%A9"], whose [%] signs a second pass replaces. *)
Lemma C2_sanitize_not_idempotent :
  sanitize_uri latin1_alnum [233] = s2l "%C3%A9" /\
  sanitize_uri latin1_alnum (sanitize_uri latin1_alnum [233]) = s2l "_C3_A9" /\
  sanitize_uri latin1_alnum (sanitize_uri latin1_alnum [233])
    <> sanitize_uri latin1_alnum [233].
Proof.
  split; [reflexivity|split; [reflexivity|]].
  vm_compute. discriminate.
Qed.

(** Claim C2 (amended): [sanitize_uri] is idempotent on every string with no
    alphanumeric character outside ASCII (in particular on every ASCII
    string): then its output uses only ASCII letters, digits, [_] and [-]
    with no two consecutive underscores. *)
Theorem C2_sanitize_idempotent_ascii : forall ua x,
  (forall c, In c x -> 128 <= c -> ua c = false) ->
  sanitize_uri ua (sanitize_uri ua x) = sanitize_uri ua x.
Proof.
  intros ua x H.
  assert (Hp : forallb plain (sub_runs false (sub_nonword ua x)) = true)
    by (apply sub_runs_plain, sub_nonword_plain, H).
  assert (E : sanitize_uri ua x = sub_runs false (sub_nonword ua x))
    by (apply quote_plain, Hp).
  rewrite E. unfold sanitize_uri.
  rewrite (sub_nonword_id ua _ Hp), sub_runs_idem.
  apply quote_plain, Hp.
Qed.

Lemma C2_sanitize_idempotent_ascii_witness :
  (forall c, In c (s2l "O'Brien - 20%") -> 128 <= c -> latin1_alnum c = false) /\
  sanitize_uri latin1_alnum (sanitize_uri latin1_alnum (s2l "O'Brien - 20%"))
  = sanitize_uri latin1_alnum (s2l "O'Brien - 20%").
Proof.
  assert (H : forall c, In c (s2l "O'Brien - 20%") -> 128 <= c -> latin1_alnum c = false).
  { intros c Hc Hge. simpl in Hc.
    repeat (destruct Hc as [<-|Hc]; [lia|]). destruct Hc. }
  split; [exact H|].
  apply (C2_sanitize_idempotent_ascii latin1_alnum (s2l "O'Brien - 20%") H).
Defined.

End SanitizeProofs.

(** ** Ontology matcher *)
Module OntologyProofs.
Import Ontology.

(** Claim C3: when the trimmed, lowercased forms of [a] and [b] are both
    variants of one equivalence group, [is_semantically_similar a b] is true
    whatever the matching blocks and the threshold, so whatever the fuzzy
    ratio. *)
Theorem C3_group_bypasses_ratio :
  forall uc matching_chars threshold a b grp,
    In grp semantic_equivalence ->
    str_in (py_strip (py_lower uc a)) (snd grp) = true ->
    str_in (py_strip (py_lower uc b)) (snd grp) = true ->
    is_semantically_similar uc matching_chars threshold a b = true.
Proof.
  intros uc m thr a b grp Hg Ha Hb. unfold is_semantically_similar.
  destruct (list_Z_eqb _ _); [reflexivity|].
  replace (existsb _ semantic_equivalence) with true; [reflexivity|].
  symmetry. apply existsb_exists. exists grp. split; [exact Hg|].
  rewrite Ha, Hb. reflexivity.
Qed.

(** ["born"] and ["date of birth"] with a ratio of 0, below the default
    threshold 0.8. *)
Lemma C3_group_bypasses_ratio_witness :
  let m := fun _ _ : list Z => 0%nat in
  In (s2l "birth", map s2l ["born"; "date of birth"; "birthdate"]%string) semantic_equivalence /\
  (difflib_ratio m (s2l "born") (s2l "date of birth") < 4 # 5)%Q /\
  is_semantically_similar sample_case m (4 # 5) (s2l "born") (s2l "date of birth") = true.
Proof.
  intro m. split; [left; reflexivity|]. split; [vm_compute; reflexivity|].
  apply (C3_group_bypasses_ratio sample_case m (4 # 5) (s2l "born") (s2l "date of birth")
           (s2l "birth", map s2l ["born"; "date of birth"; "birthdate"]%string));
    [left; reflexivity | vm_compute; reflexivity | vm_compute; reflexivity].
Defined.

(** Claim C6, failing input: an empty target property matches an empty
    source with ratio 1 (difflib's ratio of two empty strings), at or above
    the default threshold 0.8, yet [if best_match:] treats the found match
    [''] as no match and the source is left out of the mapping. *)
Theorem C6_empty_target_dropped : forall uc matching_chars,
  difflib_ratio matching_chars [] [] = 1%Q /\
  Qle_bool (4 # 5) (difflib_ratio matching_chars [] []) = true /\
  fst (best_target uc matching_chars (4 # 5) [] [[]] (None, 0%Q)) = Some [] /\
  generate_ontology_mapping uc matching_chars (4 # 5) [[]] [[]] = [].
Proof.
  intros uc m. split; [reflexivity|]. split; [reflexivity|].
  split; vm_compute; reflexivity.
Qed.

End OntologyProofs.

(** ** [match_relations] *)
Module MatchProofs.
Import Ontology MatchHeap.

Lemma heap_store_last : forall (h : heap) v w,
  heap_store (h ++ [v]) (List.length h) w = h ++ [w].
Proof. induction h as [|d h IH]; intros v w; simpl; [reflexivity|]. f_equal. apply IH. Qed.

(** One iteration copies the record and stores its refinement at a fresh
    location, the next free one. *)
Lemma match_one_spec : forall h l d r,
  nth_error h l = Some d -> dict_get d (s2l "relation") = Some r ->
  match_one h l = Some (h ++ [refine_record d], List.length h).
Proof.
  intros h l d r Hl Hr. unfold match_one, refine_record. rewrite Hl, Hr.
  destruct (first_group semantic_equivalence r); [|reflexivity].
  rewrite heap_store_last. reflexivity.
Qed.

(** [first_group] is the first group, in declaration order, listing [r]. *)
Lemma first_group_first : forall gs r g,
  first_group gs r = Some g <->
  exists pre vs post, gs = pre ++ (g, vs) :: post /\ str_in r vs = true /\
    forall g' vs', In (g', vs') pre -> str_in r vs' = false.
Proof.
  induction gs as [|[g0 vs0] gs IH]; intros r g; simpl.
  - split; [discriminate|]. intros (pre & vs & post & E & _).
    destruct pre; discriminate.
  - destruct (str_in r vs0) eqn:E0; split.
    + intros [= <-]. exists [], vs0, gs. repeat split; auto. intros ? ? [].
    + intros (pre & vs & post & E & Hin & Hpre). destruct pre as [|[g1 vs1] pre].
      * injection E as -> _ _. reflexivity.
      * injection E as -> -> _. rewrite (Hpre g1 vs1 (or_introl eq_refl)) in E0.
        discriminate.
    + intro H. apply IH in H as (pre & vs & post & -> & Hin & Hpre).
      exists ((g0, vs0) :: pre), vs, post. repeat split; auto.
      intros g' vs' [Heq|Hp]; [injection Heq as <- <-; exact E0|exact (Hpre _ _ Hp)].
    + intros (pre & vs & post & E & Hin & Hpre). apply IH.
      destruct pre as [|[g1 vs1] pre].
      * injection E as -> -> _. rewrite Hin in E0. discriminate.
      * injection E as -> -> ->. exists pre, vs, post.
        repeat split; auto. intros g' vs' Hp. apply (Hpre g' vs'). right. exact Hp.
Qed.

Lemma match_loop_spec : forall rs h matched,
  (forall l, In l rs -> exists d r, nth_error h l = Some d /\
                                    dict_get d (s2l "relation") = Some r) ->
  exists h' ls,
    match_loop h rs matched = Some (h', matched ++ ls) /\
    List.length ls = List.length rs /\
    (forall i l, nth_error rs i = Some l ->
       exists d l', nth_error h l = Some d /\ nth_error ls i = Some l' /\
                    nth_error h' l' = Some (refine_record d)) /\
    (forall l d, nth_error h l = Some d -> nth_error h' l = Some d) /\
    (forall l', In l' ls -> List.length h <= l')%nat.
Proof.
  induction rs as [|l rs IH]; intros h matched Hv.
  - exists h, []. rewrite app_nil_r. repeat split; auto.
    + intros i l Hi. destruct i; discriminate.
    + intros l' [].
  - destruct (Hv l (or_introl eq_refl)) as (d & r & Hd & Hr).
    set (h1 := h ++ [refine_record d]).
    assert (Hkeep : forall l0 d0, nth_error h l0 = Some d0 -> nth_error h1 l0 = Some d0).
    { intros l0 d0 H0. unfold h1. rewrite nth_error_app1; [exact H0|].
      apply nth_error_Some. rewrite H0. discriminate. }
    destruct (IH h1 (matched ++ [List.length h])) as (h' & ls & E & Hlen & Hrec & Hpres & Hfresh).
    { intros l0 Hl0. destruct (Hv l0 (or_intror Hl0)) as (d0 & r0 & H0 & H0r).
      exists d0, r0. split; [apply Hkeep, H0|exact H0r]. }
    exists h', (List.length h :: ls). simpl. rewrite (match_one_spec h l d r Hd Hr).
    rewrite <- app_assoc in E. split; [exact E|]. split; [simpl; congruence|].
    split; [|split].
    + intros [|i] l0 Hi; simpl in Hi.
      * injection Hi as <-. exists d, (List.length h). repeat split; auto.
        apply Hpres. unfold h1. rewrite nth_error_app2 by lia.
        rewrite Nat.sub_diag. reflexivity.
      * destruct (Hv l0 (or_intror (nth_error_In _ _ Hi))) as (d0 & r0 & H0 & _).
        destruct (Hrec i l0 Hi) as (d1 & l' & H1 & H2 & H3).
        rewrite (Hkeep _ _ H0) in H1. injection H1 as <-.
        exists d0, l'. auto.
    + intros l0 d0 H0. apply Hpres, Hkeep, H0.
    + intros l' [<-|Hl']; [lia|]. apply Hfresh in Hl'. unfold h1 in Hl'.
      rewrite length_app in Hl'. lia.
Qed.

(** Claim C4: on records (dict objects) that all have a ['relation'] key,
    [match_relations] returns as many records as it gets, in the same order;
    the i-th output is a fresh copy of the i-th input with ['relation']
    rewritten to the canonical name of the first group (declaration order,
    [first_group_first]) listing it as a variant, and unchanged otherwise;
    every object of the input heap, the input records included, keeps its
    contents. *)
Theorem C4_match_relations_one_to_one : forall h rs,
  (forall l, In l rs -> exists d r, nth_error h l = Some d /\
                                    dict_get d (s2l "relation") = Some r) ->
  exists h' ls,
    match_relations h rs = Some (h', ls) /\
    List.length ls = List.length rs /\
    (forall i l, nth_error rs i = Some l ->
       exists d l', nth_error h l = Some d /\ nth_error ls i = Some l' /\
         nth_error h' l' = Some
           (match dict_get d (s2l "relation") with
            | Some r => match first_group semantic_equivalence r with
                        | Some g => dict_set d (s2l "relation") g
                        | None => d
                        end
            | None => d
            end)) /\
    (forall l d, nth_error h l = Some d -> nth_error h' l = Some d) /\
    (forall l', In l' ls -> ~ In l' rs).
Proof.
  intros h rs Hv.
  destruct (match_loop_spec rs h [] Hv) as (h' & ls & E & Hlen & Hrec & Hpres & Hfresh).
  exists h', ls. split; [exact E|]. split; [exact Hlen|]. split; [exact Hrec|].
  split; [exact Hpres|].
  intros l' Hl' Hin. apply Hfresh in Hl'.
  destruct (Hv l' Hin) as (d & _ & Hd & _).
  assert (Hlt : (l' < List.length h)%nat) by (apply nth_error_Some; rewrite Hd; discriminate).
  lia.
Qed.

(** Two records, the first a variant of the ['birth'] group. *)
Definition sample_heap : heap :=
  [ [(s2l "relation", s2l "born"); (s2l "description", s2l "d")];
    [(s2l "relation", s2l "height"); (s2l "description", s2l "e")] ].

Lemma C4_match_relations_one_to_one_witness :
  (forall l, In l [0; 1]%nat -> exists d r, nth_error sample_heap l = Some d /\
                                            dict_get d (s2l "relation") = Some r) /\
  match_relations sample_heap [0; 1]%nat =
    Some (sample_heap ++
          [ [(s2l "relation", s2l "birth"); (s2l "description", s2l "d")];
            [(s2l "relation", s2l "height"); (s2l "description", s2l "e")] ], [2; 3]%nat).
Proof.
  assert (H : forall l, In l [0; 1]%nat -> exists d r, nth_error sample_heap l = Some d /\
                                            dict_get d (s2l "relation") = Some r).
  { intros l [<-|[<-|[]]]; eexists; eexists; split; reflexivity. }
  split; [exact H|].
  destruct (C4_match_relations_one_to_one sample_heap [0; 1]%nat H) as (h' & ls & E & _).
  rewrite E. rewrite <- E. vm_compute. reflexivity.
Defined.

End MatchProofs.

(** ** Relation extractor *)
Module ExtractorProofs.
Import Extractor.

(** A code point that [str.lower()] leaves as it is, wherever it stands. *)
Definition lower_fixed (uc : unicode_case) (d : Z) : Prop :=
  d <> 931 /\ (d < 128 -> ascii_lower d = d) /\ (128 <= d -> lower_full uc d = [d]).

Lemma lower_ucs4_fixed : forall uc before d after,
  lower_fixed uc d -> lower_ucs4 uc before d after = [d].
Proof.
  intros uc before d after (H1 & H2 & H3). unfold lower_ucs4.
  destruct (Z.ltb_spec d 128) as [Hd|Hd].
  - rewrite H2 by exact Hd. reflexivity.
  - rewrite (proj2 (Z.eqb_neq d 931) H1). apply H3, Hd.
Qed.

Lemma lower_ucs4_out_fixed : forall uc before c after d,
  lower_stable uc -> In d (lower_ucs4 uc before c after) -> lower_fixed uc d.
Proof.
  intros uc before c after d (H962 & H963 & Hs) Hin. unfold lower_ucs4 in Hin.
  destruct (Z.ltb_spec c 128) as [Hc|Hc].
  - destruct Hin as [<-|[]].
    assert (Hl : ascii_lower c < 128 /\ ascii_lower (ascii_lower c) = ascii_lower c).
    { unfold ascii_lower.
      destruct (Z.leb_spec 65 c), (Z.leb_spec c 90); simpl;
        [destruct (Z.leb_spec 65 (c + 32)), (Z.leb_spec (c + 32) 90); simpl; split; lia|..];
        rewrite ?andb_false_r; simpl; (split; [lia|]);
        try (destruct (Z.leb_spec 65 c), (Z.leb_spec c 90)); simpl; lia. }
    split; [lia|]. split; [intros _; apply Hl|intro; lia].
  - destruct (Z.eqb_spec c 931) as [->|Hn].
    + destruct (final_sigma uc before after); destruct Hin as [<-|[]];
        (split; [discriminate|split; [intro; lia|intros _; assumption]]).
    + exact (Hs c d Hc Hn Hin).
Qed.

Lemma lower_from_out_fixed : forall uc s before d,
  lower_stable uc -> In d (lower_from uc before s) -> lower_fixed uc d.
Proof.
  intros uc s. induction s as [|c s IH]; intros before d Hst Hin; simpl in Hin; [destruct Hin|].
  apply in_app_or in Hin as [Hin|Hin].
  - exact (lower_ucs4_out_fixed uc before c s d Hst Hin).
  - exact (IH (c :: before) d Hst Hin).
Qed.

Lemma lower_from_fixed : forall uc r before,
  (forall d, In d r -> lower_fixed uc d) -> lower_from uc before r = r.
Proof.
  intros uc r. induction r as [|c r IH]; intros before H; [reflexivity|].
  simpl. rewrite lower_ucs4_fixed by (apply H; left; reflexivity).
  simpl. f_equal. apply IH. intros d Hd. apply H. right. exact Hd.
Qed.

Lemma prefixb_incl : forall p s d, prefixb p s = true -> In d p -> In d s.
Proof.
  induction p as [|x p IH]; intros [|y s] d H Hd; simpl in *; try discriminate; try contradiction.
  apply andb_prop in H as [H1 H2]. apply Z.eqb_eq in H1. subst y.
  destruct Hd as [<-|Hd]; [left; reflexivity|right; exact (IH s d H2 Hd)].
Qed.

Lemma substrb_incl : forall p s d, substrb p s = true -> In d p -> In d s.
Proof.
  intros p s d. induction s as [|y s IH]; intros H Hd; simpl in H.
  - rewrite orb_false_r in H. exact (prefixb_incl p [] d H Hd).
  - apply orb_prop in H as [H|H].
    + exact (prefixb_incl p (y :: s) d H Hd).
    + right. exact (IH H Hd).
Qed.

(** A string found in a lowercased text is its own lower-case form. *)
Lemma substr_of_lower_fixed : forall uc r t,
  lower_stable uc -> substrb r (py_lower uc t) = true -> py_lower uc r = r.
Proof.
  intros uc r t Hst Hs. unfold py_lower. apply lower_from_fixed.
  intros d Hd. apply (lower_from_out_fixed uc t [] d Hst).
  exact (substrb_incl r _ d Hs Hd).
Qed.

Definition has_description (kv : list Z * details) : Prop :=
  dict_get (snd kv) (s2l "description") <> None.

Lemma extract_loop_none_match : forall table text,
  (forall r det, In (r, det) table -> substrb r text = false) ->
  extract_loop table text = Some [].
Proof.
  induction table as [|[r det] t IH]; intros text H; [reflexivity|].
  simpl. rewrite (H r det (or_introl eq_refl)).
  apply IH. intros r0 d0 Hin. apply (H r0 d0). right. exact Hin.
Qed.

Lemma extract_loop_found : forall table text,
  Forall has_description table ->
  exists recs, extract_loop table text = Some recs /\
    forall r det, In (r, det) table -> substrb r text = true ->
      exists rec, In rec recs /\ dict_get rec (s2l "relation") = Some r.
Proof.
  induction table as [|[r det] t IH]; intros text Hd.
  - exists []. split; [reflexivity|]. intros ? ? [].
  - inversion Hd as [|? ? Hd0 Hdt]; subst.
    destruct (IH text Hdt) as (recs & E & Hrecs).
    simpl. destruct (substrb r text) eqn:Es.
    + unfold has_description in Hd0. simpl in Hd0.
      destruct (dict_get det (s2l "description")) as [desc|] eqn:Ed;
        [|contradiction].
      rewrite E. eexists. split; [reflexivity|].
      intros r0 d0 [[= <- <-]|Hin] Hs.
      * eexists. split; [left; reflexivity|reflexivity].
      * destruct (Hrecs r0 d0 Hin Hs) as (rec & Hr1 & Hr2).
        exists rec. split; [right; exact Hr1|exact Hr2].
    + exists recs. split; [exact E|].
      intros r0 d0 [[= <- <-]|Hin] Hs; [congruence|].
      exact (Hrecs r0 d0 Hin Hs).
Qed.

(** The relation field of a record of [extract_loop] is a name of the
    table found in the text. *)
Lemma extract_loop_relation_found : forall table text rs rec r,
  extract_loop table text = Some rs -> In rec rs ->
  dict_get rec (s2l "relation") = Some r -> substrb r text = true.
Proof.
  induction table as [|[rel det] t IH]; intros text rs rec r E Hin Hr; simpl in E.
  - injection E as <-. destruct Hin.
  - destruct (substrb rel text) eqn:Es; [|exact (IH text rs rec r E Hin Hr)].
    destruct (dict_get det (s2l "description")); [|discriminate].
    destruct (extract_loop t text) as [rest|] eqn:Er; [|discriminate].
    injection E as <-. destruct Hin as [<-|Hin]; [|exact (IH text rest rec r Er Hin Hr)].
    simpl in Hr. injection Hr as <-. exact Es.
Qed.

(** A custom relation whose name has an upper-case letter. *)
Definition award_state : extractor :=
  add_custom_relation (init [])
    [(s2l "relation", s2l "Award"); (s2l "description", s2l "An award received")].

(** Claim C5, counterexample: ["Award"] is in the vocabulary and occurs in
    the text ["Award"] (case-insensitively, and even exactly), but only the
    text is lowercased, and the extractor finds nothing (the text is ASCII,
    where every case table agrees with Python's). *)
Lemma C5_uppercase_name_missed :
  (exists det, In (s2l "Award", det) (all_relations award_state)) /\
  substrb (py_lower sample_case (s2l "Award")) (py_lower sample_case (s2l "Award")) = true /\
  extract_relations sample_case award_state (s2l "Award") = Some [].
Proof.
  split; [eexists; vm_compute; right; right; right; right; right; left; reflexivity|].
  split; vm_compute; reflexivity.
Qed.

(** Claim C5 (amended).  "[r] occurs case-insensitively in [t]" is
    [r.lower() in t.lower()].  If every vocabulary entry has a description
    (as the standard table and [add_custom_relation] give), every vocabulary
    name [r] equal to its own lower-case form that occurs case-insensitively
    in [t] is the relation of a record of [extract_relations t].  With the
    Unicode case tables (whose lower-case output is stable), if no
    vocabulary name occurs case-insensitively in [t] the result is empty,
    and every name reported is its own lower-case form: a name with an
    upper-case letter is never found. *)
Theorem C5_extract_relations_lowercase_names : forall uc st t,
  (Forall has_description (all_relations st) ->
   forall r det, In (r, det) (all_relations st) -> py_lower uc r = r ->
     substrb (py_lower uc r) (py_lower uc t) = true ->
     exists recs rec, extract_relations uc st t = Some recs /\ In rec recs /\
                      dict_get rec (s2l "relation") = Some r) /\
  (lower_stable uc ->
   (forall r det, In (r, det) (all_relations st) ->
      substrb (py_lower uc r) (py_lower uc t) = false) ->
   extract_relations uc st t = Some []) /\
  (lower_stable uc ->
   forall recs rec r, extract_relations uc st t = Some recs -> In rec recs ->
     dict_get rec (s2l "relation") = Some r -> py_lower uc r = r).
Proof.
  intros uc st t. split; [|split].
  - intros Hd r det Hin Hl Hs. rewrite Hl in Hs.
    destruct (extract_loop_found (all_relations st) (py_lower uc t) Hd) as (recs & E & H).
    destruct (H r det Hin Hs) as (rec & H1 & H2).
    exists recs, rec. auto.
  - intros Hst H. apply extract_loop_none_match.
    intros r det Hin. destruct (substrb r (py_lower uc t)) eqn:Es; [|reflexivity].
    pose proof (H r det Hin) as Hf.
    rewrite (substr_of_lower_fixed uc r t Hst Es) in Hf. congruence.
  - intros Hst recs rec r E Hin Hr.
    apply (substr_of_lower_fixed uc r t Hst).
    exact (extract_loop_relation_found _ _ recs rec r E Hin Hr).
Qed.

Lemma sample_case_stable : lower_stable sample_case.
Proof.
  split; [reflexivity|]. split; [reflexivity|].
  intros c d Hc Hn Hin. cbn [lower_full sample_case] in Hin. unfold sample_lower_full in Hin.
  destruct (((192 <=? c) && (c <=? 222) && negb (c =? 215))
            || ((913 <=? c) && (c <=? 937) && negb (c =? 930) && negb (c =? 931))) eqn:E1.
  - destruct Hin as [<-|[]].
    assert (Hr : (224 <= c + 32 <= 254) \/ (945 <= c + 32 <= 969 /\ c + 32 <> 962 /\ c + 32 <> 963)).
    { apply orb_prop in E1 as [E|E]; repeat rewrite andb_true_iff in E;
        rewrite ?negb_true_iff, ?Z.leb_le, ?Z.eqb_neq in E; lia. }
    split; [lia|]. split; [lia|]. intros _.
    cbn [lower_full sample_case]. unfold sample_lower_full.
    destruct (Z.leb_spec 192 (c + 32)), (Z.leb_spec (c + 32) 222),
      (Z.leb_spec 913 (c + 32)), (Z.leb_spec (c + 32) 937); try lia;
      simpl; rewrite ?andb_false_r; simpl;
      destruct (Z.eqb_spec (c + 32) 304); try lia;
      destruct (Z.eqb_spec (c + 32) 8490); try lia; reflexivity.
  - destruct (Z.eqb_spec c 304) as [->|H304].
    + destruct Hin as [<-|[<-|[]]].
      * split; [discriminate|]. split; [reflexivity|]. intro; lia.
      * split; [discriminate|]. split; [intro; lia|]. intros _. reflexivity.
    + destruct (Z.eqb_spec c 8490) as [->|H8490].
      * destruct Hin as [<-|[]]. split; [discriminate|]. split; [reflexivity|]. intro; lia.
      * destruct Hin as [<-|[]]. split; [exact Hn|]. split; [intro; lia|]. intros _.
        cbn [lower_full sample_case]. unfold sample_lower_full. rewrite E1.
        rewrite (proj2 (Z.eqb_neq c 304) H304), (proj2 (Z.eqb_neq c 8490) H8490).
        reflexivity.
Qed.

(** A custom relation ['ω'] (U+03C9) found in the text ['Ω'] (U+03A9);
    ['Born in 1952'] names no relation. *)
Definition omega_state : extractor :=
  add_custom_relation (init [])
    [(s2l "relation", [969]); (s2l "description", s2l "A Greek letter")].

Lemma C5_extract_relations_lowercase_names_witness :
  (exists recs rec, extract_relations sample_case omega_state [937] = Some recs
     /\ In rec recs /\ dict_get rec (s2l "relation") = Some [969]) /\
  extract_relations sample_case (init []) (s2l "Born in 1952") = Some [] /\
  (forall recs rec r,
     extract_relations sample_case omega_state (s2l "The OCCUPATION of " ++ [937]) = Some recs ->
     In rec recs -> dict_get rec (s2l "relation") = Some r -> py_lower sample_case r = r).
Proof.
  destruct (C5_extract_relations_lowercase_names sample_case omega_state [937])
    as [H1 _].
  destruct (C5_extract_relations_lowercase_names sample_case (init []) (s2l "Born in 1952"))
    as [_ [H2 _]].
  destruct (C5_extract_relations_lowercase_names sample_case omega_state
              (s2l "The OCCUPATION of " ++ [937])) as [_ [_ H3]].
  split; [|split].
  - apply (H1 ltac:(repeat constructor; vm_compute; discriminate)
              [969] [(s2l "description", s2l "A Greek letter"); (s2l "domain", s2l "Unknown");
                     (s2l "range", s2l "Unknown")]).
    + vm_compute. right; right; right; right; right; left; reflexivity.
    + reflexivity.
    + vm_compute. reflexivity.
  - apply H2; [exact sample_case_stable|]. intros r det Hin.
    repeat (destruct Hin as [Hin|Hin]; [injection Hin as <- <-; vm_compute; reflexivity|]).
    destruct Hin.
  - exact (H3 sample_case_stable).
Defined.

(** Claim C10: [add_custom_relation] with no ['relation'] key, or with an
    empty one, leaves the whole extractor state (standard, custom and merged
    tables) as it was, hence every later [extract_relations] call too. *)
Theorem C10_add_custom_relation_noop : forall st relation,
  dict_get relation (s2l "relation") = None \/
  dict_get relation (s2l "relation") = Some [] ->
  add_custom_relation st relation = st /\
  forall uc t, extract_relations uc (add_custom_relation st relation) t
               = extract_relations uc st t.
Proof.
  intros st relation H.
  assert (E : add_custom_relation st relation = st).
  { unfold add_custom_relation. destruct H as [H|H]; rewrite H; reflexivity. }
  split; [exact E|]. intros uc t. rewrite E. reflexivity.
Qed.

Lemma C10_add_custom_relation_noop_witness :
  (dict_get [(s2l "relation", []); (s2l "description", s2l "x")] (s2l "relation") = None \/
   dict_get [(s2l "relation", []); (s2l "description", s2l "x")] (s2l "relation") = Some []) /\
  add_custom_relation (init []) [(s2l "relation", []); (s2l "description", s2l "x")] = init [].
Proof.
  assert (H : dict_get [(s2l "relation", []); (s2l "description", s2l "x")] (s2l "relation") = None \/
   dict_get [(s2l "relation", []); (s2l "description", s2l "x")] (s2l "relation") = Some [])
    by (right; reflexivity).
  split; [exact H|]. apply (C10_add_custom_relation_noop (init []) _ H).
Defined.

End ExtractorProofs.

(** ** Graph assembly *)
Module KGProofs.
Import KG.

Lemma option_eqb_eq : forall a b, option_eqb a b = true <-> a = b.
Proof.
  intros [x|] [y|]; simpl; split; intro H; try discriminate; auto.
  - apply list_Z_eqb_eq in H. subst. reflexivity.
  - injection H as ->. apply list_Z_eqb_eq. reflexivity.
Qed.

Lemma term_eqb_eq : forall a b, term_eqb a b = true <-> a = b.
Proof.
  intros [x|x l] [y|y m]; simpl; split; intro H; try discriminate.
  - apply list_Z_eqb_eq in H. subst. reflexivity.
  - injection H as ->. apply list_Z_eqb_eq. reflexivity.
  - apply andb_prop in H as [H1 H2].
    apply list_Z_eqb_eq in H1. apply option_eqb_eq in H2. subst. reflexivity.
  - injection H as -> ->. apply andb_true_intro.
    split; [apply list_Z_eqb_eq|apply option_eqb_eq]; reflexivity.
Qed.

Lemma triple_eqb_eq : forall t u, triple_eqb t u = true <-> t = u.
Proof.
  intros [[s p] o] [[s' p'] o']. simpl. rewrite !andb_true_iff, !term_eqb_eq.
  split; [intros [[-> ->] ->]; reflexivity|intros [= -> -> ->]; auto].
Qed.

(** The graph is a set: [g.add] never creates a duplicate. *)
Lemma graph_add_nodup : forall g t, NoDup g -> NoDup (graph_add g t).
Proof.
  intros g t H. unfold graph_add. destruct (existsb (triple_eqb t) g) eqn:E; [exact H|].
  apply NoDup_app; [exact H|constructor; [intros []|constructor]|].
  intros x Hx [->|[]]. assert (Hin : existsb (triple_eqb x) g = true).
  { apply existsb_exists. exists x. split; [exact Hx|]. apply triple_eqb_eq. reflexivity. }
  congruence.
Qed.

Lemma add_entities_nodup : forall ua es g, NoDup g -> NoDup (add_entities ua g es).
Proof.
  intros ua. induction es as [|[text label] es IH]; intros g H; simpl; [exact H|].
  apply IH. repeat apply graph_add_nodup. exact H.
Qed.

Lemma add_relations_nodup : forall ua rs g g',
  NoDup g -> add_relations ua g rs = Some g' -> NoDup g'.
Proof.
  intros ua. induction rs as [|r rs IH]; intros g g' H E; simpl in E.
  - injection E as <-. exact H.
  - destruct (dict_get r (s2l "relation")); [|discriminate].
    destruct (dict_get r (s2l "description")); [|discriminate].
    refine (IH _ _ _ E). repeat apply graph_add_nodup. exact H.
Qed.

Lemma add_questions_nodup : forall qs g idx, NoDup g -> NoDup (add_questions g idx qs).
Proof.
  induction qs as [|q qs IH]; intros g idx H; simpl; [exact H|].
  apply IH. repeat apply graph_add_nodup. exact H.
Qed.

Lemma build_graph_nodup : forall ua es rs qs g,
  build_graph ua es rs qs = Some g -> NoDup g.
Proof.
  intros ua es rs qs g E. unfold build_graph in E.
  destruct (add_relations _ _ _) as [g3|] eqn:E3; [|discriminate].
  injection E as <-. apply add_questions_nodup.
  eapply add_relations_nodup; [|exact E3].
  apply add_entities_nodup. repeat apply graph_add_nodup. constructor.
Qed.

(** The round-trip scenario of the specification. *)
Definition scenario_entities : list (list Z * list Z) :=
  [(s2l "Douglas Adams", s2l "PERSON")].

Definition scenario_relations : list dict :=
  [ [(s2l "relation", s2l "occupation");
     (s2l "description", s2l "The primary occupation of a person");
     (s2l "domain", s2l "Person"); (s2l "range", s2l "Occupation")] ].

Definition scenario_questions : list (list Z) := [s2l "Who was Douglas Adams?"].

Definition scenario_graph : graph :=
  let e := URIRef (WD ++ s2l "Douglas_Adams") in
  let r := URIRef (WDT ++ s2l "occupation") in
  let q := URIRef (WD ++ s2l "CompetencyQuestion_1") in
  [ (* the document node *)
    (doc_uri, RDF_type, URIRef (SCHEMA ++ s2l "CreativeWork"));
    (doc_uri, RDFS_label, Literal (s2l "Source Document") en);
    (* the entity *)
    (e, RDF_type, URIRef (SCHEMA ++ s2l "PERSON"));
    (e, RDFS_label, Literal (s2l "Douglas Adams") en);
    (doc_uri, URIRef (SCHEMA ++ s2l "mentions"), e);
    (* the relation *)
    (r, RDF_type, URIRef (SCHEMA ++ s2l "Property"));
    (r, RDFS_label, Literal (s2l "occupation") None);
    (r, RDFS_comment, Literal (s2l "The primary occupation of a person") None);
    (* the question *)
    (q, RDF_type, URIRef (SCHEMA ++ s2l "Question"));
    (q, RDFS_label, Literal (s2l "Who was Douglas Adams?") en);
    (doc_uri, URIRef (SCHEMA ++ s2l "hasPart"), q) ].

(** Claim C7, counterexample: the scenario's graph has 11 triples, not 12. *)
Lemma C7_scenario_not_12_triples :
  option_map (@List.length triple)
    (build_graph Sanitize.latin1_alnum scenario_entities scenario_relations scenario_questions)
  = Some 11%nat /\
  option_map (@List.length triple)
    (build_graph Sanitize.latin1_alnum scenario_entities scenario_relations scenario_questions)
  <> Some 12%nat.
Proof. split; [vm_compute; reflexivity|vm_compute; congruence]. Qed.

(** Claim C7 (amended): the scenario's graph is exactly 11 distinct
    triples: 2 for the document node (type, label), 3 for the entity (type,
    label, and the document's [mentions] link), 3 for the relation (type,
    label, comment) and 3 for the question (type, label, and the document's
    [hasPart] link). *)
Theorem C7_scenario_11_triples :
  build_graph Sanitize.latin1_alnum scenario_entities scenario_relations scenario_questions
  = Some scenario_graph /\
  List.length scenario_graph = 11%nat /\ NoDup scenario_graph.
Proof.
  assert (E : build_graph Sanitize.latin1_alnum scenario_entities scenario_relations
                scenario_questions = Some scenario_graph) by (vm_compute; reflexivity).
  split; [exact E|]. split; [reflexivity|]. exact (build_graph_nodup _ _ _ _ _ E).
Qed.

End KGProofs.

(** ** Output format *)
Module PipelineProofs.
Import Pipeline.

Ltac split_matches :=
  repeat match goal with
         | |- context [match ?x with _ => _ end] => let E := fresh "E" in destruct x eqn:E
         end.

Definition full_trace : list stage :=
  [ExtractText; GenerateQuestions; ExtractRelations; MatchRelations; BuildGraph].

Lemma generate_no_graph :
  forall textract gq ner ua uc st doc maxq fmt kg,
    list_Z_eqb (py_lower uc fmt) (s2l "turtle") = false ->
    snd (generate_knowledge_graph textract gq ner ua uc st doc maxq fmt) <> inr kg.
Proof.
  intros textract gq ner ua uc st doc maxq fmt kg Hf. unfold generate_knowledge_graph.
  rewrite Hf. simpl negb. split_matches; simpl; discriminate.
Qed.

(** A document from which extraction succeeds. *)
Definition sample_text : list Z := s2l "Douglas Adams was an author; his occupation: writer.".

(** Claim C8, counterexample: with the format ["xml"] the orchestrator
    first runs every stage (extraction, questions, relations, matching,
    graph assembly) and only then rejects the format; when the text
    extraction fails, the caller gets that failure, not a format error. *)
Lemma C8_format_checked_after_pipeline :
  generate_knowledge_graph (fun _ => Some sample_text) (fun _ _ => []) (fun _ => [])
    Sanitize.latin1_alnum sample_case (Extractor.init []) (s2l "book.txt") 3 (s2l "xml")
  = (full_trace, inl UnsupportedFormat) /\
  generate_knowledge_graph (fun _ => None) (fun _ _ => []) (fun _ => [])
    Sanitize.latin1_alnum sample_case (Extractor.init []) (s2l "book.txt") 3 (s2l "xml")
  = ([ExtractText], inl ExtractionFailure).
Proof. split; vm_compute; reflexivity. Qed.

End PipelineProofs.

(** ** More of the ontology matcher *)
Module OntologyMoreProofs.
Import Ontology.

Section Mapping.
Local Open Scope Q_scope.
Variable uc : unicode_case.
Variable matching_chars : list Z -> list Z -> nat.
Variable threshold : Q.

Let r (s t : list Z) : Q := difflib_ratio matching_chars (py_lower uc s) (py_lower uc t).

Lemma best_target_inv : forall s ts b bs,
  let res := best_target uc matching_chars threshold s ts (b, bs) in
  (fst res = b /\ snd res = bs /\ forall t, In t ts -> ~ (bs < r s t /\ threshold <= r s t))
  \/ (exists pre t post, ts = pre ++ t :: post /\ fst res = Some t /\
        bs < r s t /\ threshold <= r s t /\
        (forall t', In t' pre -> r s t' < r s t) /\
        (forall t', In t' post -> ~ (r s t < r s t' /\ threshold <= r s t'))).
Proof.
  intros s ts. induction ts as [|t0 ts IH]; intros b bs; simpl.
  - left. split; [reflexivity|split; [reflexivity|intros t []]].
  - fold (r s t0). destruct (Qlt_le_dec bs (r s t0)) as [Hlt|Hge].
    + destruct (Qle_bool threshold (r s t0)) eqn:Eq.
      * apply Qle_bool_iff in Eq.
        destruct (IH (Some t0) (r s t0)) as [(E1 & E2 & Hn)|(pre & t & post & E & E1 & H1 & H2 & H3 & H4)].
        -- right. exists [], t0, ts. repeat split; auto. intros t' [].
        -- right. exists (t0 :: pre), t, post. split; [rewrite E; reflexivity|]. repeat split; auto.
           ++ lra.
           ++ intros t' [<-|Ht']; auto.
      * assert (Hn0 : ~ (threshold <= r s t0))
          by (intro Hc; apply Qle_bool_iff in Hc; congruence).
        destruct (IH b bs) as [(E1 & E2 & Hn)|(pre & t & post & E & E1 & H1 & H2 & H3 & H4)].
        -- left. repeat split; auto. intros t [<-|Ht]; [tauto|apply Hn, Ht].
        -- right. exists (t0 :: pre), t, post. split; [rewrite E; reflexivity|]. repeat split; auto.
           intros t' [<-|Ht']; auto.
           destruct (Qlt_le_dec (r s t0) (r s t)) as [Hl|Hl]; auto.
           exfalso. apply Hn0. lra.
    + destruct (IH b bs) as [(E1 & E2 & Hn)|(pre & t & post & E & E1 & H1 & H2 & H3 & H4)].
      * left. repeat split; auto. intros t [<-|Ht]; [lra|apply Hn, Ht].
      * right. exists (t0 :: pre), t, post. split; [rewrite E; reflexivity|]. repeat split; auto.
        intros t' [<-|Ht']; auto. lra.
Qed.

Lemma dict_get_set : forall (d : dict) k v k',
  dict_get (dict_set d k v) k' = if list_Z_eqb k' k then Some v else dict_get d k'.
Proof.
  induction d as [|[k0 v0] d IH]; intros k v k'; simpl.
  - destruct (list_Z_eqb k' k); reflexivity.
  - destruct (list_Z_eqb k k0) eqn:E; simpl.
    + apply list_Z_eqb_eq in E. subst k0. destruct (list_Z_eqb k' k); reflexivity.
    + rewrite IH. destruct (list_Z_eqb k' k0) eqn:E'; [|reflexivity].
      apply list_Z_eqb_eq in E'. subst k'.
      destruct (list_Z_eqb k0 k) eqn:E''; [|reflexivity].
      apply list_Z_eqb_eq in E''. subst. rewrite (proj2 (list_Z_eqb_eq k k) eq_refl) in E.
      discriminate.
Qed.

Let bestf (s : list Z) (ts : list (list Z)) : option (list Z) :=
  fst (best_target uc matching_chars threshold s ts (None, 0%Q)).

Lemma mapping_loop_get : forall ss ts m0 s,
  dict_get (mapping_loop uc matching_chars threshold ss ts m0) s =
  if str_in s ss && truthy (bestf s ts) then bestf s ts else dict_get m0 s.
Proof.
  induction ss as [|s0 ss IH]; intros ts m0 s; [reflexivity|].
  unfold str_in. simpl. fold (str_in s ss). fold (bestf s0 ts).
  destruct (list_Z_eqb s s0) eqn:Es.
  - apply list_Z_eqb_eq in Es. subst s0. simpl.
    destruct (bestf s ts) as [[|c b]|] eqn:Eb; simpl; rewrite IH, Eb; simpl;
      rewrite ?andb_true_r, ?andb_false_r; try reflexivity.
    rewrite dict_get_set, (proj2 (list_Z_eqb_eq s s) eq_refl).
    destruct (str_in s ss); reflexivity.
  - simpl. destruct (bestf s0 ts) as [[|c b]|]; simpl; rewrite IH; try reflexivity.
    rewrite dict_get_set, Es. reflexivity.
Qed.

(** What [generate_ontology_mapping] maps a source to is a non-empty
    target with the maximum ratio, at or above the threshold and above 0,
    and the first target reaching that maximum. *)
Theorem generate_ontology_mapping_sound : forall sources targets s t,
  dict_get (generate_ontology_mapping uc matching_chars threshold sources targets) s = Some t ->
  In s sources /\ t <> [] /\
  exists pre post, targets = pre ++ t :: post /\
    threshold <= r s t /\ 0 < r s t /\
    (forall t', In t' pre -> r s t' < r s t) /\
    (forall t', In t' post -> r s t' <= r s t).
Proof.
  intros ss ts s t H. unfold generate_ontology_mapping in H.
  rewrite mapping_loop_get in H.
  destruct (str_in s ss) eqn:Es; [|discriminate].
  destruct (truthy (bestf s ts)) eqn:Et; [|discriminate]. simpl in H.
  split; [apply existsb_exists in Es as (x & Hx & Ex); apply list_Z_eqb_eq in Ex;
          subst; exact Hx|].
  unfold bestf in H, Et. rewrite H in Et.
  split; [destruct t; [discriminate|congruence]|].
  destruct (best_target_inv s ts None 0%Q) as [(E1 & _)|(pre & t1 & post & E & E1 & H1 & H2 & H3 & H4)].
  - rewrite H in E1. discriminate.
  - rewrite H in E1. injection E1 as <-. exists pre, post. repeat split; auto.
    intros t' Ht'. specialize (H4 t' Ht').
    destruct (Qlt_le_dec (r s t) (r s t')) as [Hl|Hl]; [|exact Hl].
    exfalso. apply H4. split; [exact Hl|lra].
Qed.

(** With a positive threshold and no empty target, every source that has
    a target at or above the threshold is mapped. *)
Theorem generate_ontology_mapping_complete : forall sources targets s t,
  0 < threshold ->
  (forall t', In t' targets -> t' <> []) ->
  In s sources -> In t targets -> threshold <= r s t ->
  exists t', dict_get (generate_ontology_mapping uc matching_chars threshold sources targets) s
             = Some t'.
Proof.
  intros ss ts s t Hthr Hne Hs Ht Hr. unfold generate_ontology_mapping.
  rewrite mapping_loop_get.
  replace (str_in s ss) with true
    by (symmetry; apply existsb_exists; exists s; split; [exact Hs|apply list_Z_eqb_eq; reflexivity]).
  unfold bestf.
  destruct (best_target_inv s ts None 0%Q) as [(E1 & _ & Hn)|(pre & t1 & post & E & E1 & H1 & H2 & H3 & H4)].
  - exfalso. apply (Hn t Ht). split; [lra|exact Hr].
  - rewrite E1. simpl.
    assert (Hin : In t1 ts) by (rewrite E; apply in_or_app; right; left; reflexivity).
    destruct t1 as [|c t1]; [exfalso; exact (Hne [] Hin eq_refl)|].
    eexists. reflexivity.
Qed.

End Mapping.

Lemma generate_ontology_mapping_sound_witness :
  let m := fun a b : list Z => if list_Z_eqb a b then List.length a else 0%nat in
  dict_get (generate_ontology_mapping sample_case m (4 # 5) [s2l "job"] [s2l "Job"; s2l "career"])
    (s2l "job") = Some (s2l "Job") /\
  In (s2l "job") [s2l "job"] /\ s2l "Job" <> [].
Proof.
  intros m.
  assert (H : dict_get (generate_ontology_mapping sample_case m (4 # 5) [s2l "job"] [s2l "Job"; s2l "career"])
                (s2l "job") = Some (s2l "Job")) by (vm_compute; reflexivity).
  split; [exact H|].
  destruct (generate_ontology_mapping_sound sample_case m (4 # 5) _ _ _ _ H) as (H1 & H2 & _).
  split; [exact H1|exact H2].
Defined.

Lemma generate_ontology_mapping_complete_witness :
  let m := fun a b : list Z => if list_Z_eqb a b then List.length a else 0%nat in
  exists t', dict_get (generate_ontology_mapping sample_case m (4 # 5) [s2l "job"; s2l "born"]
                         [s2l "career"; s2l "JOB"]) (s2l "job") = Some t'.
Proof.
  intros m.
  apply (generate_ontology_mapping_complete sample_case m (4 # 5) _ _ (s2l "job") (s2l "JOB")).
  - vm_compute. reflexivity.
  - intros t' [<-|[<-|[]]]; discriminate.
  - left. reflexivity.
  - right. left. reflexivity.
  - vm_compute. discriminate.
Defined.
End OntologyMoreProofs.

Module ExtractorMoreProofs.
Import Extractor.

Lemma extract_loop_records : forall table text rs,
  extract_loop table text = Some rs ->
  forall d, In d rs <->
    exists rel det desc, In (rel, det) table /\ substrb rel text = true /\
      dict_get det (s2l "description") = Some desc /\
      d = [(s2l "relation", rel); (s2l "description", desc);
           (s2l "domain", dict_get_default det (s2l "domain") (s2l "Unknown"));
           (s2l "range", dict_get_default det (s2l "range") (s2l "Unknown"))].
Proof.
  induction table as [|[rel det] t IH]; intros text rs E d; simpl in E.
  - injection E as <-. split; [intros []|]. intros (? & ? & ? & [] & _).
  - destruct (substrb rel text) eqn:Es.
    + destruct (dict_get det (s2l "description")) as [desc|] eqn:Ed; [|discriminate].
      destruct (extract_loop t text) as [rest|] eqn:Er; [|discriminate].
      injection E as <-. split.
      * intros [<-|Hd].
        -- exists rel, det, desc. repeat split; auto. left. reflexivity.
        -- apply (IH text rest Er) in Hd as (r0 & d0 & ds0 & H1 & H2 & H3 & H4).
           exists r0, d0, ds0. repeat split; auto. right. exact H1.
      * intros (r0 & d0 & ds0 & [[= <- <-]|H1] & H2 & H3 & H4).
        -- left. rewrite H4. rewrite Ed in H3. injection H3 as <-. reflexivity.
        -- right. apply (IH text rest Er). exists r0, d0, ds0. auto.
    + rewrite (IH text rs E d). split.
      * intros (r0 & d0 & ds0 & H1 & H2 & H3 & H4). exists r0, d0, ds0.
        repeat split; auto. right. exact H1.
      * intros (r0 & d0 & ds0 & [[= <- <-]|H1] & H2 & H3 & H4); [congruence|].
        exists r0, d0, ds0. auto.
Qed.

Lemma extract_loop_none : forall table text,
  extract_loop table text = None <->
  exists rel det, In (rel, det) table /\ substrb rel text = true /\
    dict_get det (s2l "description") = None.
Proof.
  induction table as [|[rel det] t IH]; intro text; simpl.
  - split; [discriminate|]. intros (? & ? & [] & _).
  - destruct (substrb rel text) eqn:Es.
    + destruct (dict_get det (s2l "description")) as [desc|] eqn:Ed.
      * destruct (extract_loop t text) as [rest|] eqn:Er; split.
        -- discriminate.
        -- intros (r0 & d0 & [[= <- <-]|H1] & H2 & H3); [congruence|].
           assert (Hn : extract_loop t text = None) by (apply IH; eauto).
           congruence.
        -- intros _. apply IH in Er as (r0 & d0 & H1 & H2 & H3). exists r0, d0. auto.
        -- reflexivity.
      * split; [intros _; exists rel, det; auto|reflexivity].
    + rewrite IH. split.
      * intros (r0 & d0 & H1 & H2 & H3). exists r0, d0. auto.
      * intros (r0 & d0 & [[= <- <-]|H1] & H2 & H3); [congruence|]. exists r0, d0. auto.
Qed.

Lemma extract_loop_order : forall table text rs,
  extract_loop table text = Some rs ->
  map (fun d => dict_get d (s2l "relation")) rs
  = map Some (filter (fun k => substrb k text) (map fst table)).
Proof.
  induction table as [|[rel det] t IH]; intros text rs E; simpl in E.
  - injection E as <-. reflexivity.
  - simpl. destruct (substrb rel text) eqn:Es.
    + destruct (dict_get det (s2l "description")); [|discriminate].
      destruct (extract_loop t text) as [rest|] eqn:Er; [|discriminate].
      injection E as <-. simpl. rewrite (IH text rest Er). reflexivity.
    + exact (IH text rs E).
Qed.

Lemma lookup_table_set : forall t k v k',
  lookup_table (dict_set t k v) k' = if list_Z_eqb k' k then Some v else lookup_table t k'.
Proof.
  induction t as [|[k0 v0] t IH]; intros k v k'; simpl.
  - destruct (list_Z_eqb k' k); reflexivity.
  - destruct (list_Z_eqb k k0) eqn:E; simpl.
    + apply list_Z_eqb_eq in E. subst k0. destruct (list_Z_eqb k' k); reflexivity.
    + rewrite IH. destruct (list_Z_eqb k' k0) eqn:E'; [|reflexivity].
      apply list_Z_eqb_eq in E'. subst k'.
      destruct (list_Z_eqb k0 k) eqn:E''; [|reflexivity].
      apply list_Z_eqb_eq in E''. subst. rewrite (proj2 (list_Z_eqb_eq k k) eq_refl) in E.
      discriminate.
Qed.

Lemma lookup_table_app : forall t u k,
  lookup_table (t ++ u) k =
  match lookup_table t k with Some v => Some v | None => lookup_table u k end.
Proof.
  induction t as [|[k0 v0] t IH]; intros u k; simpl; [reflexivity|].
  destruct (list_Z_eqb k k0); [reflexivity|apply IH].
Qed.

Lemma merge_lookup : forall b a k,
  lookup_table (merge a b) k =
  match lookup_table (rev b) k with Some v => Some v | None => lookup_table a k end.
Proof.
  unfold merge. induction b as [|[k0 v0] b IH]; intros a k; simpl; [reflexivity|].
  rewrite IH, lookup_table_app, lookup_table_set. simpl.
  destruct (lookup_table (rev b) k); [reflexivity|].
  destruct (list_Z_eqb k k0); reflexivity.
Qed.

Lemma in_dict_set : forall {V} (t : list (list Z * V)) k v kv,
  In kv (dict_set t k v) -> kv = (k, v) \/ In kv t.
Proof.
  intros V. induction t as [|[k0 v0] t IH]; intros k v kv H; simpl in H.
  - destruct H as [<-|[]]. left. reflexivity.
  - destruct (list_Z_eqb k k0).
    + destruct H as [<-|H]; [left; reflexivity|right; right; exact H].
    + destruct H as [<-|H]; [right; left; reflexivity|].
      destruct (IH k v kv H) as [->|H']; [left; reflexivity|right; right; exact H'].
Qed.

Lemma in_dict_set_self : forall {V} (t : list (list Z * V)) k v, In (k, v) (dict_set t k v).
Proof.
  intros V. induction t as [|[k0 v0] t IH]; intros k v; simpl.
  - left. reflexivity.
  - destruct (list_Z_eqb k k0); [left; reflexivity|right; apply IH].
Qed.

Lemma nodup_extract_loop : forall table text rs,
  NoDup (map fst table) -> extract_loop table text = Some rs ->
  NoDup (map (fun d => dict_get d (s2l "relation")) rs).
Proof.
  intros table text rs Hn E. rewrite (extract_loop_order table text rs E).
  apply (NoDup_filter (fun k => substrb k text)) in Hn. revert Hn.
  generalize (filter (fun k => substrb k text) (map fst table)).
  induction l as [|x l IH]; intro H; simpl; [constructor|].
  inversion H as [|? ? Hx Hl]; subst. constructor; [|apply IH, Hl].
  intro Hin. apply in_map_iff in Hin as (y & [= ->] & Hy). contradiction.
Qed.

(** [extract_relations] returns exactly one record per vocabulary entry
    (standard or custom) whose name occurs in the lowercased text: the name,
    the entry's description, and its domain and range with ['Unknown'] for
    a missing one; no two records carry the same name. *)
Theorem extract_relations_records : forall uc st text rs,
  NoDup (map fst (all_relations st)) ->
  extract_relations uc st text = Some rs ->
  NoDup (map (fun d => dict_get d (s2l "relation")) rs) /\
  forall d, In d rs <->
    exists rel det desc, In (rel, det) (all_relations st) /\
      substrb rel (py_lower uc text) = true /\
      dict_get det (s2l "description") = Some desc /\
      d = [(s2l "relation", rel); (s2l "description", desc);
           (s2l "domain", dict_get_default det (s2l "domain") (s2l "Unknown"));
           (s2l "range", dict_get_default det (s2l "range") (s2l "Unknown"))].
Proof.
  intros uc st text rs Hn E. split.
  - exact (nodup_extract_loop _ _ rs Hn E).
  - exact (extract_loop_records _ _ rs E).
Qed.

Ltac nodup_names :=
  repeat (constructor; [let H := fresh in
                        intro H; repeat (destruct H as [H|H]; [discriminate H|]); exact H|]);
  constructor.

Lemma extract_relations_records_witness :
  extract_relations sample_case (init []) (s2l "Her OCCUPATION was writer") =
    Some [[(s2l "relation", s2l "occupation");
           (s2l "description", s2l "The occupation of a person");
           (s2l "domain", s2l "Person"); (s2l "range", s2l "Occupation")]] /\
  NoDup (map fst (all_relations (init []))) /\
  exists rel det desc, In (rel, det) (all_relations (init [])) /\
    substrb rel (py_lower sample_case (s2l "Her OCCUPATION was writer")) = true /\
    dict_get det (s2l "description") = Some desc /\
    [(s2l "relation", s2l "occupation");
     (s2l "description", s2l "The occupation of a person");
     (s2l "domain", s2l "Person"); (s2l "range", s2l "Occupation")] =
    [(s2l "relation", rel); (s2l "description", desc);
     (s2l "domain", dict_get_default det (s2l "domain") (s2l "Unknown"));
     (s2l "range", dict_get_default det (s2l "range") (s2l "Unknown"))].
Proof.
  assert (E : extract_relations sample_case (init []) (s2l "Her OCCUPATION was writer") =
    Some [[(s2l "relation", s2l "occupation");
           (s2l "description", s2l "The occupation of a person");
           (s2l "domain", s2l "Person"); (s2l "range", s2l "Occupation")]])
    by (vm_compute; reflexivity).
  assert (Hn : NoDup (map fst (all_relations (init [])))) by (vm_compute; nodup_names).
  split; [exact E|]. split; [exact Hn|].
  apply (proj2 (extract_relations_records sample_case (init []) _ _ Hn E)). left. reflexivity.
Defined.

(** [extract_relations] raises [KeyError] exactly when some vocabulary
    entry whose name occurs in the lowercased text has no ['description']. *)
Theorem extract_relations_keyerror : forall uc st text,
  extract_relations uc st text = None <->
  exists rel det, In (rel, det) (all_relations st) /\
    substrb rel (py_lower uc text) = true /\ dict_get det (s2l "description") = None.
Proof. intros uc st text. apply extract_loop_none. Qed.

(** The records come in the iteration order of [all_relations], one per
    matching name. *)
Theorem extract_relations_order : forall uc st text rs,
  extract_relations uc st text = Some rs ->
  map (fun d => dict_get d (s2l "relation")) rs
  = map Some (filter (fun k => substrb k (py_lower uc text)) (map fst (all_relations st))).
Proof. intros uc st text rs E. exact (extract_loop_order _ _ rs E). Qed.

Lemma extract_relations_order_witness :
  extract_relations sample_case (init []) (s2l "Occupation and date of birth") =
    Some [[(s2l "relation", s2l "date of birth");
           (s2l "description", s2l "The date on which the subject was born");
           (s2l "domain", s2l "Person"); (s2l "range", s2l "Date")];
          [(s2l "relation", s2l "occupation");
           (s2l "description", s2l "The occupation of a person");
           (s2l "domain", s2l "Person"); (s2l "range", s2l "Occupation")]] /\
  map Some (filter (fun k => substrb k (py_lower sample_case (s2l "Occupation and date of birth")))
              (map fst (all_relations (init [])))) =
  [Some (s2l "date of birth"); Some (s2l "occupation")].
Proof.
  assert (E : extract_relations sample_case (init []) (s2l "Occupation and date of birth") =
    Some [[(s2l "relation", s2l "date of birth");
           (s2l "description", s2l "The date on which the subject was born");
           (s2l "domain", s2l "Person"); (s2l "range", s2l "Date")];
          [(s2l "relation", s2l "occupation");
           (s2l "description", s2l "The occupation of a person");
           (s2l "domain", s2l "Person"); (s2l "range", s2l "Occupation")]])
    by (vm_compute; reflexivity).
  split; [exact E|].
  rewrite <- (extract_relations_order _ _ _ _ E). reflexivity.
Defined.

(** [{**standard_relations, **custom_relations}]: a name of the custom
    table gets its (last) custom details, any other name its standard ones. *)
Theorem init_all_relations_lookup : forall custom k,
  lookup_table (all_relations (init custom)) k =
  match lookup_table (rev custom) k with
  | Some v => Some v
  | None => lookup_table standard_table k
  end.
Proof. intros custom k. apply merge_lookup. Qed.

(** *** [add_custom_relation] keeps [all_relations] equal to
    [{**standard_relations, **custom_relations}] *)

Definition keys {V} (t : list (list Z * V)) : list (list Z) := map fst t.

Lemma list_Z_eqb_refl : forall k, list_Z_eqb k k = true.
Proof. intro k. apply list_Z_eqb_eq. reflexivity. Qed.

Lemma list_Z_eqb_sym : forall a b, list_Z_eqb a b = list_Z_eqb b a.
Proof.
  intros a b. destruct (list_Z_eqb a b) eqn:E1, (list_Z_eqb b a) eqn:E2; auto.
  - apply list_Z_eqb_eq in E1. subst. rewrite list_Z_eqb_refl in E2. discriminate.
  - apply list_Z_eqb_eq in E2. subst. rewrite list_Z_eqb_refl in E1. discriminate.
Qed.

Lemma in_keys_dict_set : forall {V} (t : list (list Z * V)) k v k',
  In k' (keys t) -> In k' (keys (dict_set t k v)).
Proof.
  intros V. induction t as [|[k0 v0] t IH]; intros k v k' H; [destruct H|].
  simpl in *. destruct (list_Z_eqb k k0) eqn:E.
  - apply list_Z_eqb_eq in E. subst. exact H.
  - destruct H as [<-|H]; [left; reflexivity|right; apply IH, H].
Qed.

Lemma in_keys_dict_set_self : forall {V} (t : list (list Z * V)) k v,
  In k (keys (dict_set t k v)).
Proof.
  intros V t k v. apply (in_map fst _ (k, v)), in_dict_set_self.
Qed.

(** Setting a present key twice keeps the last value. *)
Lemma dict_set_twice : forall {V} (t : list (list Z * V)) k v v',
  dict_set (dict_set t k v) k v' = dict_set t k v'.
Proof.
  intros V. induction t as [|[k0 v0] t IH]; intros k v v'; simpl.
  - rewrite list_Z_eqb_refl. reflexivity.
  - destruct (list_Z_eqb k k0) eqn:E; simpl.
    + rewrite list_Z_eqb_refl. reflexivity.
    + rewrite E, IH. reflexivity.
Qed.

(** Setting two different keys, the first one already present, in either
    order gives the same dict. *)
Lemma dict_set_comm_present : forall {V} (t : list (list Z * V)) k v k' v',
  In k (keys t) -> list_Z_eqb k k' = false ->
  dict_set (dict_set t k v) k' v' = dict_set (dict_set t k' v') k v.
Proof.
  intros V. induction t as [|[k0 v0] t IH]; intros k v k' v' Hin Hne; [destruct Hin|].
  simpl in Hin.
  destruct (list_Z_eqb k k0) eqn:E1, (list_Z_eqb k' k0) eqn:E2.
  - apply list_Z_eqb_eq in E1, E2. subst. rewrite list_Z_eqb_refl in Hne. discriminate.
  - apply list_Z_eqb_eq in E1. subst k0.
    cbn [dict_set]. rewrite list_Z_eqb_refl, E2. cbn [dict_set].
    rewrite list_Z_eqb_refl, E2. reflexivity.
  - apply list_Z_eqb_eq in E2. subst k0.
    cbn [dict_set]. rewrite list_Z_eqb_refl, E1. cbn [dict_set].
    rewrite list_Z_eqb_refl, E1. reflexivity.
  - cbn [dict_set]. rewrite E1, E2. cbn [dict_set]. rewrite E1, E2.
    f_equal. apply IH; [|exact Hne].
    destruct Hin as [->|Hin]; [rewrite list_Z_eqb_refl in E1; discriminate|exact Hin].
Qed.

Lemma merge_set_present : forall b a k v,
  In k (keys a) -> ~ In k (keys b) ->
  merge (dict_set a k v) b = dict_set (merge a b) k v.
Proof.
  unfold merge. induction b as [|[k0 v0] b IH]; intros a k v Ha Hb; [reflexivity|].
  simpl in Hb |- *.
  assert (Hne : list_Z_eqb k k0 = false).
  { destruct (list_Z_eqb k k0) eqn:E; [|reflexivity].
    apply list_Z_eqb_eq in E. subst. exfalso. apply Hb. left. reflexivity. }
  rewrite dict_set_comm_present by assumption.
  apply IH; [apply in_keys_dict_set, Ha|intro H; apply Hb; right; exact H].
Qed.

(** [{**a, **b}] after [b[k] = v] is [{**a, **b}] after [[k] = v]. *)
Lemma merge_dict_set : forall b a k v,
  NoDup (keys b) ->
  merge a (dict_set b k v) = dict_set (merge a b) k v.
Proof.
  induction b as [|[k0 v0] b IH]; intros a k v Hn; [reflexivity|].
  inversion Hn as [|? ? Hk0 Hnb]; subst.
  simpl. destruct (list_Z_eqb k k0) eqn:E.
  - apply list_Z_eqb_eq in E. subst k0. unfold merge. simpl. fold (merge (dict_set a k v) b).
    fold (merge (dict_set a k v0) b).
    rewrite <- merge_set_present by (apply in_keys_dict_set_self || exact Hk0).
    rewrite dict_set_twice. reflexivity.
  - unfold merge at 1. simpl. fold (merge (dict_set a k0 v0) (dict_set b k v)).
    rewrite IH by exact Hnb. reflexivity.
Qed.

Lemma nodup_dict_set : forall {V} (t : list (list Z * V)) k v,
  NoDup (keys t) -> NoDup (keys (dict_set t k v)).
Proof.
  intros V. induction t as [|[k0 v0] t IH]; intros k v Hn; simpl.
  - repeat constructor. intros [].
  - inversion Hn as [|? ? Hk0 Hnt]; subst.
    destruct (list_Z_eqb k k0) eqn:E.
    + apply list_Z_eqb_eq in E. subst. exact Hn.
    + simpl. constructor; [|apply IH, Hnt].
      intro H. unfold keys in H. apply in_map_iff in H as ([k1 v1] & Hk & H).
      simpl in Hk. subst k1. apply in_dict_set in H as [[= -> _]|H].
      * rewrite list_Z_eqb_refl in E. discriminate.
      * apply Hk0. apply (in_map fst _ _ H).
Qed.

(** [add_custom_relation] keeps the invariant of [__init__]: the combined
    table is [{**standard_relations, **custom_relations}], also in its
    iteration order, and the custom table has no duplicate name. *)
Theorem add_custom_relation_invariant : forall st relation,
  NoDup (keys (custom_relations st)) ->
  all_relations st = merge (standard_relations st) (custom_relations st) ->
  NoDup (keys (custom_relations (add_custom_relation st relation))) /\
  all_relations (add_custom_relation st relation)
  = merge (standard_relations (add_custom_relation st relation))
          (custom_relations (add_custom_relation st relation)).
Proof.
  intros st relation Hn Hall. unfold add_custom_relation.
  destruct (dict_get relation (s2l "relation")) as [[|c key]|]; simpl;
    try (split; assumption).
  split; [apply nodup_dict_set, Hn|].
  rewrite merge_dict_set by exact Hn. rewrite Hall. reflexivity.
Qed.

Lemma add_custom_relation_invariant_witness :
  NoDup (keys (custom_relations (init []))) /\
  all_relations (init []) = merge (standard_relations (init [])) (custom_relations (init [])) /\
  all_relations (add_custom_relation (init [])
                   [(s2l "relation", s2l "award"); (s2l "range", s2l "Prize")])
  = merge standard_table [(s2l "award", [(s2l "description", []);
                                          (s2l "domain", s2l "Unknown");
                                          (s2l "range", s2l "Prize")])].
Proof.
  assert (H1 : NoDup (keys (custom_relations (init [])))) by constructor.
  assert (H2 : all_relations (init []) =
               merge (standard_relations (init [])) (custom_relations (init [])))
    by reflexivity.
  split; [exact H1|]. split; [exact H2|].
  exact (proj2 (add_custom_relation_invariant (init [])
                  [(s2l "relation", s2l "award"); (s2l "range", s2l "Prize")] H1 H2)).
Defined.

(** After [add_custom_relation] of a non-empty name occurring in the
    lowercased text, an extraction that succeeded before still succeeds and
    reports the new relation with the record's details. *)
Theorem add_custom_relation_then_extract : forall uc st relation key text rs0,
  dict_get relation (s2l "relation") = Some key -> key <> [] ->
  substrb key (py_lower uc text) = true ->
  extract_relations uc st text = Some rs0 ->
  exists rs, extract_relations uc (add_custom_relation st relation) text = Some rs /\
    In [(s2l "relation", key);
        (s2l "description", dict_get_default relation (s2l "description") []);
        (s2l "domain", dict_get_default relation (s2l "domain") (s2l "Unknown"));
        (s2l "range", dict_get_default relation (s2l "range") (s2l "Unknown"))] rs.
Proof.
  intros uc st relation key text rs0 Hk Hne Hs E.
  set (det := [(s2l "description", dict_get_default relation (s2l "description") []);
               (s2l "domain", dict_get_default relation (s2l "domain") (s2l "Unknown"));
               (s2l "range", dict_get_default relation (s2l "range") (s2l "Unknown"))]).
  assert (Hall : all_relations (add_custom_relation st relation)
                 = dict_set (all_relations st) key det).
  { unfold add_custom_relation. rewrite Hk. destruct key; [congruence|]. reflexivity. }
  unfold extract_relations in *. rewrite Hall.
  destruct (extract_loop (dict_set (all_relations st) key det) (py_lower uc text))
    as [rs|] eqn:E2.
  - exists rs. split; [reflexivity|].
    apply (extract_loop_records _ _ rs E2). exists key, det.
    exists (dict_get_default relation (s2l "description") []).
    split; [apply in_dict_set_self|]. split; [exact Hs|]. split; reflexivity.
  - exfalso. apply extract_loop_none in E2 as (r0 & d0 & H1 & H2 & H3).
    apply in_dict_set in H1 as [[= -> ->]|H1]; [discriminate|].
    assert (Hn : extract_loop (all_relations st) (py_lower uc text) = None)
      by (apply extract_loop_none; eauto).
    congruence.
Qed.

Lemma add_custom_relation_then_extract_witness :
  exists rs,
    extract_relations sample_case (add_custom_relation (init [])
       [(s2l "relation", s2l "award"); (s2l "description", s2l "An award")])
       (s2l "She won an Award") = Some rs /\
    In [(s2l "relation", s2l "award"); (s2l "description", s2l "An award");
        (s2l "domain", s2l "Unknown"); (s2l "range", s2l "Unknown")] rs.
Proof.
  apply (add_custom_relation_then_extract sample_case (init [])
           [(s2l "relation", s2l "award"); (s2l "description", s2l "An award")]
           (s2l "award") (s2l "She won an Award") []).
  - reflexivity.
  - discriminate.
  - vm_compute. reflexivity.
  - vm_compute. reflexivity.
Defined.

End ExtractorMoreProofs.

Module MatchMoreProofs.
Import Ontology MatchHeap.

Lemma first_group_canonical : forall r g,
  first_group semantic_equivalence r = Some g -> first_group semantic_equivalence g = None.
Proof.
  intros r g H. apply MatchProofs.first_group_first in H as (pre & vs & post & E & _).
  assert (Hin : In (g, vs) semantic_equivalence) by (rewrite E; apply in_or_app; right; left; reflexivity).
  repeat (destruct Hin as [[= <- <-]|Hin]; [reflexivity|]). destruct Hin.
Qed.

Lemma dict_get_set_same : forall (d : dict) k v, dict_get (dict_set d k v) k = Some v.
Proof.
  induction d as [|[k0 v0] d IH]; intros k v; simpl.
  - rewrite (proj2 (list_Z_eqb_eq k k) eq_refl). reflexivity.
  - destruct (list_Z_eqb k k0) eqn:E; simpl.
    + rewrite (proj2 (list_Z_eqb_eq k k) eq_refl). reflexivity.
    + rewrite E. apply IH.
Qed.

Lemma refine_record_idem : forall d, refine_record (refine_record d) = refine_record d.
Proof.
  intro d. unfold refine_record at 2 3.
  destruct (dict_get d (s2l "relation")) as [r|] eqn:Er; [|unfold refine_record; rewrite Er; reflexivity].
  destruct (first_group semantic_equivalence r) as [g|] eqn:Eg;
    [|unfold refine_record; rewrite Er, Eg; reflexivity].
  unfold refine_record. rewrite dict_get_set_same, (first_group_canonical r g Eg). reflexivity.
Qed.

Lemma refine_record_relation : forall d r,
  dict_get d (s2l "relation") = Some r -> exists r', dict_get (refine_record d) (s2l "relation") = Some r'.
Proof.
  intros d r H. unfold refine_record. rewrite H.
  destruct (first_group semantic_equivalence r) as [g|]; [|eauto].
  exists g. apply dict_get_set_same.
Qed.

Lemma deref_spec : forall h ls ds,
  Pipeline.deref h ls = Some ds <->
  List.length ls = List.length ds /\
  forall i l, nth_error ls i = Some l -> nth_error h l = nth_error ds i.
Proof.
  induction ls as [|l ls IH]; intros ds; simpl.
  - split.
    + intros [= <-]. split; [reflexivity|]. intros [|i] l0 H; discriminate.
    + intros [Hl _]. destruct ds; [reflexivity|discriminate].
  - split.
    + intro H. destruct (nth_error h l) as [d|] eqn:Ed; [|discriminate].
      assert (Er : exists ds', Pipeline.deref h ls = Some ds' /\ ds = d :: ds').
      { destruct (Pipeline.deref h ls) as [ds'|]; [|discriminate].
        injection H as <-. eauto. }
      destruct Er as (ds' & Er & ->). apply IH in Er as [Hl Hn]. simpl. split; [congruence|].
      intros [|i] l0 Hi; simpl in Hi; [injection Hi as <-; exact Ed|exact (Hn i l0 Hi)].
    + intros [Hl Hn]. destruct ds as [|d ds]; [discriminate|].
      rewrite (Hn 0%nat l eq_refl).
      assert (E : Pipeline.deref h ls = Some ds).
      { apply IH. split; [simpl in Hl; congruence|]. intros i l0 H. exact (Hn (S i) l0 H). }
      rewrite E. reflexivity.
Qed.

Lemma match_relations_deref : forall h rs,
  (forall l, In l rs -> exists d r, nth_error h l = Some d /\
                                    dict_get d (s2l "relation") = Some r) ->
  exists h' ls ds,
    match_relations h rs = Some (h', ls) /\ Pipeline.deref h rs = Some ds /\
    Pipeline.deref h' ls = Some (map refine_record ds) /\
    forall l, In l ls -> exists d r, nth_error h' l = Some d /\
                                     dict_get d (s2l "relation") = Some r.
Proof.
  intros h rs Hv.
  destruct (MatchProofs.match_loop_spec rs h [] Hv) as (h' & ls & E & Hlen & Hrec & _ & _).
  simpl in E.
  assert (Hd : exists ds, Pipeline.deref h rs = Some ds).
  { clear E Hlen Hrec. induction rs as [|l rs IH]; [exists []; reflexivity|].
    destruct (Hv l (or_introl eq_refl)) as (d & _ & Hd & _).
    destruct IH as [ds Hds]; [intros l0 Hl0; apply Hv; right; exact Hl0|].
    exists (d :: ds). simpl. rewrite Hd, Hds. reflexivity. }
  destruct Hd as [ds Hds].
  pose proof (proj1 (deref_spec h rs ds) Hds) as [Hl Hn].
  exists h', ls, ds. split; [exact E|]. split; [exact Hds|]. split.
  - apply deref_spec. split; [rewrite length_map; etransitivity; [exact Hlen|exact Hl]|].
    intros i l' Hi.
    assert (Hr : exists l, nth_error rs i = Some l).
    { destruct (nth_error rs i) as [l|] eqn:Er; [eauto|].
      apply nth_error_None in Er. assert (Hlt : (i < List.length ls)%nat)
        by (apply nth_error_Some; rewrite Hi; discriminate). lia. }
    destruct Hr as [l Hr].
    destruct (Hrec i l Hr) as (d & l'' & H1 & H2 & H3).
    rewrite Hi in H2. injection H2 as <-. rewrite H3, nth_error_map, <- (Hn i l Hr), H1.
    reflexivity.
  - intros l' Hl'. apply In_nth_error in Hl' as [i Hi].
    assert (Hr : exists l, nth_error rs i = Some l).
    { destruct (nth_error rs i) as [l|] eqn:Er; [eauto|].
      apply nth_error_None in Er. assert (Hlt : (i < List.length ls)%nat)
        by (apply nth_error_Some; rewrite Hi; discriminate). lia. }
    destruct Hr as [l Hr].
    destruct (Hrec i l Hr) as (d & l'' & H1 & H2 & H3).
    rewrite Hi in H2. injection H2 as <-.
    destruct (Hv l (nth_error_In _ _ Hr)) as (d0 & r0 & H0 & Hr0).
    rewrite H1 in H0. injection H0 as <-.
    destruct (refine_record_relation d r0 Hr0) as [r' Hr'].
    exists (refine_record d), r'. auto.
Qed.

(** [match_relations] is idempotent on what it returns: running it again
    on the records of its result gives records with the same contents (a
    canonical name is no variant, so it is left as it is). *)
Theorem match_relations_idempotent : forall h rs,
  (forall l, In l rs -> exists d r, nth_error h l = Some d /\
                                    dict_get d (s2l "relation") = Some r) ->
  exists h1 ls1 h2 ls2 ds,
    match_relations h rs = Some (h1, ls1) /\
    match_relations h1 ls1 = Some (h2, ls2) /\
    Pipeline.deref h1 ls1 = Some ds /\ Pipeline.deref h2 ls2 = Some ds.
Proof.
  intros h rs Hv.
  destruct (match_relations_deref h rs Hv) as (h1 & ls1 & ds & E1 & _ & D1 & Hv1).
  destruct (match_relations_deref h1 ls1 Hv1) as (h2 & ls2 & ds' & E2 & D1' & D2 & _).
  rewrite D1 in D1'. injection D1' as <-.
  exists h1, ls1, h2, ls2, (map refine_record ds). repeat split; auto.
  rewrite D2, map_map. f_equal. apply map_ext, refine_record_idem.
Qed.

Lemma match_relations_idempotent_witness :
  exists h1 ls1 h2 ls2 ds,
    match_relations MatchProofs.sample_heap [0; 1]%nat = Some (h1, ls1) /\
    match_relations h1 ls1 = Some (h2, ls2) /\
    Pipeline.deref h1 ls1 = Some ds /\ Pipeline.deref h2 ls2 = Some ds.
Proof.
  apply match_relations_idempotent.
  intros l [<-|[<-|[]]]; eexists; eexists; split; reflexivity.
Defined.

End MatchMoreProofs.

Module PipelineMoreProofs.
Import Pipeline.

Lemma deref_seq : forall (h : MatchHeap.heap), deref h (seq 0 (List.length h)) = Some h.
Proof.
  intro h. apply MatchMoreProofs.deref_spec. split; [apply length_seq|].
  intros i l Hi. change (nth_error (seq 0 (List.length h)) i = Some l) in Hi.
  assert (Hlt : (i < List.length (seq 0 (List.length h)))%nat)
    by (apply nth_error_Some; rewrite Hi; discriminate).
  rewrite length_seq in Hlt. rewrite nth_error_seq in Hi.
  destruct (Nat.ltb_spec i (List.length h)); [|lia].
  injection Hi as <-. reflexivity.
Qed.

(** The matching stage of the orchestrator, on extracted records. *)
Lemma matched_extracted : forall uc st text rels,
  Extractor.extract_relations uc st text = Some rels ->
  match MatchHeap.match_relations rels (seq 0 (List.length rels)) with
  | Some (h, ls) => deref h ls
  | None => None
  end = Some (map MatchHeap.refine_record rels).
Proof.
  intros uc st text rels E.
  assert (Hv : forall l, In l (seq 0 (List.length rels)) ->
            exists d r, nth_error rels l = Some d /\ dict_get d (s2l "relation") = Some r).
  { intros l Hl. apply in_seq in Hl.
    destruct (nth_error rels l) as [d|] eqn:Ed;
      [|apply nth_error_None in Ed; lia].
    apply nth_error_In in Ed as Hd.
    apply (ExtractorMoreProofs.extract_loop_records _ _ rels E) in Hd
      as (rel & det & desc & _ & _ & _ & ->).
    eexists _, rel. split; reflexivity. }
  destruct (MatchMoreProofs.match_relations_deref rels _ Hv) as (h' & ls & ds & E1 & D0 & D1 & _).
  rewrite E1, D1. rewrite deref_seq in D0. injection D0 as <-. reflexivity.
Qed.

Import PipelineProofs (full_trace).

(** The run of [generate_knowledge_graph] once the text is extracted and
    the relations are extracted: matching never fails on extracted records. *)
Lemma generate_after_extract : forall textract gq ner ua uc st doc maxq fmt text rels,
  textract doc = Some text -> Extractor.extract_relations uc st text = Some rels ->
  generate_knowledge_graph textract gq ner ua uc st doc maxq fmt =
  match KG.build_graph ua (ner text) (map MatchHeap.refine_record rels) (gq text maxq) with
  | None => (full_trace, inl KeyError)
  | Some kg =>
      if negb (list_Z_eqb (py_lower uc fmt) (s2l "turtle"))
      then (full_trace, inl UnsupportedFormat) else (full_trace, inr kg)
  end.
Proof.
  intros textract gq ner ua uc st doc maxq fmt text rels Et Er.
  unfold generate_knowledge_graph. rewrite Et, Er.
  rewrite (matched_extracted uc st text rels Er). reflexivity.
Qed.

Lemma generate_graph_iff :
  forall textract gq ner ua uc st doc maxq fmt tr kg,
    generate_knowledge_graph textract gq ner ua uc st doc maxq fmt = (tr, inr kg) <->
    exists text rels,
      textract doc = Some text /\ Extractor.extract_relations uc st text = Some rels /\
      KG.build_graph ua (ner text) (map MatchHeap.refine_record rels) (gq text maxq) = Some kg /\
      list_Z_eqb (py_lower uc fmt) (s2l "turtle") = true /\
      tr = full_trace.
Proof.
  intros textract gq ner ua uc st doc maxq fmt tr kg.
  destruct (textract doc) as [text|] eqn:Et.
  2:{ unfold generate_knowledge_graph. rewrite Et.
      split; [discriminate|]. intros (? & ? & [=] & _). }
  destruct (Extractor.extract_relations uc st text) as [rels|] eqn:Er.
  2:{ unfold generate_knowledge_graph. rewrite Et, Er.
      split; [discriminate|]. intros (? & ? & [= <-] & H & _). congruence. }
  rewrite (generate_after_extract textract gq ner ua uc st doc maxq fmt text rels Et Er).
  destruct (KG.build_graph ua (ner text) (map MatchHeap.refine_record rels) (gq text maxq))
    as [g|] eqn:Eb.
  2:{ split; [discriminate|].
      intros (? & ? & [= <-] & H & Hb & _). rewrite Er in H. injection H as <-. congruence. }
  destruct (list_Z_eqb (py_lower uc fmt) (s2l "turtle")) eqn:Ef; simpl.
  - split.
    + intros [= <- <-]. exists text, rels. auto.
    + intros (? & ? & [= <-] & H & Hb & _ & ->). rewrite Er in H. injection H as <-.
      rewrite Eb in Hb. injection Hb as <-. reflexivity.
  - split; [discriminate|]. intros (_ & _ & _ & _ & _ & Hf & _). discriminate.
Qed.

(** [generate_knowledge_graph] returns a graph exactly when the text
    extraction succeeds, the relation extraction raises nothing, the graph
    built from the entities, the matched records (each extracted record with
    its relation name made canonical) and the questions is defined, and the
    format is ["turtle"] up to case; every stage has then run. *)
Theorem generate_knowledge_graph_success :
  forall textract gq ner ua uc st doc maxq fmt tr kg,
    generate_knowledge_graph textract gq ner ua uc st doc maxq fmt = (tr, inr kg) <->
    exists text rels,
      textract doc = Some text /\ Extractor.extract_relations uc st text = Some rels /\
      KG.build_graph ua (ner text) (map MatchHeap.refine_record rels) (gq text maxq) = Some kg /\
      list_Z_eqb (py_lower uc fmt) (s2l "turtle") = true /\
      tr = [ExtractText; GenerateQuestions; ExtractRelations; MatchRelations; BuildGraph].
Proof. intros. apply generate_graph_iff. Qed.

(** Claim C8 (amended).  For an output format whose lower-case form is not
    ["turtle"], [generate_knowledge_graph] never returns a graph.  It raises
    the unsupported-format error exactly when text extraction, relation
    extraction and graph assembly all succeed, and then every stage has
    run; otherwise the failure of the first failing stage is raised
    instead: text extraction, the [KeyError] of relation extraction, or the
    [KeyError] of graph assembly.  On the command line, any format other
    than exactly ["turtle"] (['TURTLE'] too) gets exit status 2 before any
    stage runs. *)
Theorem C8_unsupported_format_rejected :
  forall textract gq ner ua uc st doc maxq fmt,
    list_Z_eqb (py_lower uc fmt) (s2l "turtle") = false ->
    (forall kg, snd (generate_knowledge_graph textract gq ner ua uc st doc maxq fmt) <> inr kg) /\
    (generate_knowledge_graph textract gq ner ua uc st doc maxq fmt
       = (full_trace, inl UnsupportedFormat) <->
     exists text rels kg,
       textract doc = Some text /\ Extractor.extract_relations uc st text = Some rels /\
       KG.build_graph ua (ner text) (map MatchHeap.refine_record rels) (gq text maxq)
       = Some kg) /\
    (textract doc = None ->
     generate_knowledge_graph textract gq ner ua uc st doc maxq fmt
     = ([ExtractText], inl ExtractionFailure)) /\
    (forall text, textract doc = Some text -> Extractor.extract_relations uc st text = None ->
     generate_knowledge_graph textract gq ner ua uc st doc maxq fmt
     = ([ExtractText; GenerateQuestions; ExtractRelations], inl KeyError)) /\
    (forall text rels, textract doc = Some text ->
     Extractor.extract_relations uc st text = Some rels ->
     KG.build_graph ua (ner text) (map MatchHeap.refine_record rels) (gq text maxq) = None ->
     generate_knowledge_graph textract gq ner ua uc st doc maxq fmt
     = (full_trace, inl KeyError)) /\
    (forall orchestrator_ok write_file fmt', fmt' <> s2l "turtle" ->
     cli_main textract gq ner ua uc orchestrator_ok write_file st doc maxq fmt' = ([], 2)).
Proof.
  intros textract gq ner ua uc st doc maxq fmt Hf.
  split; [intro kg; apply PipelineProofs.generate_no_graph, Hf|].
  split; [|split; [|split; [|split]]].
  - split.
    + intro G. destruct (textract doc) as [text|] eqn:Et.
      2:{ unfold generate_knowledge_graph in G. rewrite Et in G. discriminate. }
      destruct (Extractor.extract_relations uc st text) as [rels|] eqn:Er.
      2:{ unfold generate_knowledge_graph in G. rewrite Et, Er in G. discriminate. }
      rewrite (generate_after_extract textract gq ner ua uc st doc maxq fmt text rels Et Er) in G.
      destruct (KG.build_graph ua (ner text) (map MatchHeap.refine_record rels) (gq text maxq))
        as [kg|] eqn:Eb; [|discriminate].
      exists text, rels, kg. auto.
    + intros (text & rels & kg & Et & Er & Eb).
      rewrite (generate_after_extract textract gq ner ua uc st doc maxq fmt text rels Et Er), Eb, Hf.
      reflexivity.
  - intro Et. unfold generate_knowledge_graph. rewrite Et. reflexivity.
  - intros text Et Er. unfold generate_knowledge_graph. rewrite Et, Er. reflexivity.
  - intros text rels Et Er Eb.
    rewrite (generate_after_extract textract gq ner ua uc st doc maxq fmt text rels Et Er), Eb.
    reflexivity.
  - intros orch write fmt' Hne. unfold cli_main, str_in. simpl existsb.
    rewrite orb_false_r.
    destruct (list_Z_eqb fmt' (s2l "turtle")) eqn:E; [|reflexivity].
    apply list_Z_eqb_eq in E. contradiction.
Qed.

(** The sample run: ['TTL'] is rejected after the whole pipeline has run;
    ['TURTLE'] is a usage error on the command line. *)
Lemma C8_unsupported_format_rejected_witness :
  list_Z_eqb (py_lower sample_case (s2l "TTL")) (s2l "turtle") = false /\
  generate_knowledge_graph (fun _ => Some PipelineProofs.sample_text) (fun _ _ => [])
    (fun _ => []) Sanitize.latin1_alnum sample_case (Extractor.init []) (s2l "book.txt") 3
    (s2l "TTL") = (full_trace, inl UnsupportedFormat) /\
  cli_main (fun _ => Some PipelineProofs.sample_text) (fun _ _ => []) (fun _ => [])
    Sanitize.latin1_alnum sample_case true (fun _ _ => true) (Extractor.init [])
    (s2l "book.txt") 3 (s2l "TURTLE") = ([], 2).
Proof.
  assert (H : list_Z_eqb (py_lower sample_case (s2l "TTL")) (s2l "turtle") = false)
    by reflexivity.
  destruct (C8_unsupported_format_rejected (fun _ => Some PipelineProofs.sample_text)
              (fun _ _ => []) (fun _ => []) Sanitize.latin1_alnum sample_case
              (Extractor.init []) (s2l "book.txt") 3 (s2l "TTL") H)
    as (_ & [_ H2] & _ & _ & _ & H6).
  split; [exact H|]. split.
  - apply H2. eexists _, _, _. split; [reflexivity|]. split; vm_compute; reflexivity.
  - apply H6. discriminate.
Defined.


(** *** [os.path.splitext] and the output file name *)

Lemma rfind_spec : forall c p,
  (rfind c p = -1 /\ ~ In c p) \/
  (exists pre post, p = pre ++ c :: post /\ ~ In c post /\
                    rfind c p = Z.of_nat (List.length pre)).
Proof.
  intro c. induction p as [|x t IH]; simpl.
  - left. split; [reflexivity|intros []].
  - destruct IH as [(E & Hn)|(pre & post & Ep & Hn & E)].
    + rewrite E. simpl. destruct (Z.eqb_spec x c) as [->|Hx].
      * right. exists [], t. split; [reflexivity|]. split; [exact Hn|reflexivity].
      * left. split; [reflexivity|]. intros [H|H]; [congruence|contradiction].
    + rewrite E. destruct (Z.leb_spec 0 (Z.of_nat (List.length pre))) as [_|Hl]; [|lia].
      right. exists (x :: pre), post. split; [rewrite Ep; reflexivity|].
      split; [exact Hn|]. simpl List.length. lia.
Qed.

Lemma skipn_length_app : forall (l1 l2 : list Z), skipn (List.length l1) (l1 ++ l2) = l2.
Proof. induction l1 as [|x l1 IH]; intro l2; [reflexivity|apply IH]. Qed.

Lemma skipn_length_app_cons : forall (l1 l2 : list Z) x,
  skipn (S (List.length l1)) (l1 ++ x :: l2) = l2.
Proof. induction l1 as [|y l1 IH]; intros l2 x; [reflexivity|apply IH]. Qed.

Lemma in_skipn_in : forall n (l : list Z) x, In x (skipn n l) -> In x l.
Proof.
  intros n l x H. rewrite <- (firstn_skipn n l). apply in_or_app. right. exact H.
Qed.

(** The output file is [<root>.ttl], where the input path is [<root>]
    followed by its extension: nothing, or a dot followed by no dot and no
    slash (the last dot of the file name).  The root is never empty: a file
    name of dots and an extension, such as ['.ttl'], is a root of its own. *)
Theorem output_filename_spec : forall p,
  exists root ext, p = root ++ ext /\ output_filename p = root ++ s2l ".ttl" /\
    (p <> [] -> root <> []) /\
    (ext = [] \/ exists e, ext = 46 :: e /\ ~ In 46 e /\ ~ In 47 e).
Proof.
  intro p. unfold output_filename, splitext.
  destruct (Z.ltb_spec (rfind 47 p) (rfind 46 p)) as [Hlt|Hge].
  2:{ exists p, []. rewrite app_nil_r. auto. }
  destruct (existsb _ _) eqn:Ex.
  2:{ exists p, []. rewrite app_nil_r. auto. }
  destruct (rfind_spec 46 p) as [(E & _)|(pre & post & Ep & Hn & E)].
  { exfalso. destruct (rfind_spec 47 p) as [(E' & _)|(pre' & post' & _ & _ & E')]; lia. }
  rewrite E in *. rewrite Nat2Z.id.
  exists (firstn (List.length pre) p), (skipn (List.length pre) p).
  split; [symmetry; apply firstn_skipn|]. split; [reflexivity|]. split.
  - intros _. intro Hf. rewrite Ep in Hf.
    destruct pre as [|x pre]; [|discriminate].
    destruct (rfind_spec 47 p) as [(E' & _)|(pre' & post' & _ & _ & E')];
      rewrite E' in Hlt, Ex; simpl in Hlt; [|lia].
    simpl in Ex. discriminate.
  - right. exists post. rewrite Ep, skipn_length_app. split; [reflexivity|].
    split; [exact Hn|]. intro H47.
    destruct (rfind_spec 47 p) as [(E' & Hn')|(pre' & post' & Ep' & Hn' & E')].
    + apply Hn'. rewrite Ep. apply in_or_app. right. right. exact H47.
    + rewrite E' in Hlt. apply Nat2Z.inj_lt in Hlt.
      assert (Hs : skipn (S (List.length pre')) p = post')
        by (rewrite Ep'; apply skipn_length_app_cons).
      assert (Hs2 : skipn (S (List.length pre)) p = post)
        by (rewrite Ep; apply skipn_length_app_cons).
      apply Hn'. rewrite <- Hs.
      replace (S (List.length pre)) with ((List.length pre - List.length pre') + S (List.length pre'))%nat
        in Hs2 by lia.
      rewrite <- skipn_skipn in Hs2. rewrite <- Hs2 in H47.
      exact (in_skipn_in _ _ _ H47).
Qed.

End PipelineMoreProofs.

Module KGMoreProofs.
Import KG.

Lemma in_graph_add : forall g u t, In t (graph_add g u) <-> In t g \/ t = u.
Proof.
  intros g u t. unfold graph_add. destruct (existsb (triple_eqb u) g) eqn:E.
  - split; [intro H; left; exact H|]. intros [H| ->]; [exact H|].
    apply existsb_exists in E as (x & Hx & Ex). apply KGProofs.triple_eqb_eq in Ex.
    subst. exact Hx.
  - rewrite in_app_iff. simpl. split; intros [H|H]; auto.
    + destruct H as [<-|[]]; auto.
Qed.

Lemma in_add_entities : forall ua es g t,
  In t (add_entities ua g es) <->
  In t g \/ exists e l, In (e, l) es /\
    (t = (URIRef (WD ++ Sanitize.sanitize_uri ua e), RDF_type, URIRef (SCHEMA ++ l)) \/
     t = (URIRef (WD ++ Sanitize.sanitize_uri ua e), RDFS_label, Literal e en) \/
     t = (doc_uri, URIRef (SCHEMA ++ s2l "mentions"), URIRef (WD ++ Sanitize.sanitize_uri ua e))).
Proof.
  intros ua. induction es as [|[e0 l0] es IH]; intros g t; simpl.
  - split; [auto|]. intros [H|(e & l & [] & _)]; exact H.
  - rewrite IH, !in_graph_add. split.
    + intros [[[[H|H]|H]|H]|(e & l & He & H)].
      * left; exact H.
      * right. exists e0, l0. split; [left; reflexivity|]. left; exact H.
      * right. exists e0, l0. split; [left; reflexivity|]. right; left; exact H.
      * right. exists e0, l0. split; [left; reflexivity|]. right; right; exact H.
      * right. exists e, l. split; [right; exact He|exact H].
    + intros [H|(e & l & [He|He] & H)].
      * left; left; left; left; exact H.
      * injection He as <- <-. left.
        destruct H as [H|[H|H]]; [left; left; right|left; right|right]; exact H.
      * right. exists e, l. split; [exact He|exact H].
Qed.

Lemma in_add_relations : forall ua rs g g' t,
  add_relations ua g rs = Some g' ->
  (In t g' <->
   In t g \/ exists r rel desc, In r rs /\ dict_get r (s2l "relation") = Some rel /\
     dict_get r (s2l "description") = Some desc /\
     (t = (URIRef (WDT ++ Sanitize.sanitize_uri ua rel), RDF_type,
           URIRef (SCHEMA ++ s2l "Property")) \/
      t = (URIRef (WDT ++ Sanitize.sanitize_uri ua rel), RDFS_label, Literal rel None) \/
      t = (URIRef (WDT ++ Sanitize.sanitize_uri ua rel), RDFS_comment, Literal desc None))).
Proof.
  intros ua. induction rs as [|r0 rs IH]; intros g g' t E; simpl in E.
  - injection E as <-. split; [auto|]. intros [H|(r & rel & desc & [] & _)]; exact H.
  - destruct (dict_get r0 (s2l "relation")) as [rel0|] eqn:Er; [|discriminate].
    destruct (dict_get r0 (s2l "description")) as [desc0|] eqn:Ed; [|discriminate].
    rewrite (IH _ _ t E), !in_graph_add. split.
    + intros [[[[H|H]|H]|H]|(r & rel & desc & Hr & H1 & H2 & H)].
      * left; exact H.
      * right. exists r0, rel0, desc0. split; [left; reflexivity|].
        split; [exact Er|]. split; [exact Ed|]. left; exact H.
      * right. exists r0, rel0, desc0. split; [left; reflexivity|].
        split; [exact Er|]. split; [exact Ed|]. right; left; exact H.
      * right. exists r0, rel0, desc0. split; [left; reflexivity|].
        split; [exact Er|]. split; [exact Ed|]. right; right; exact H.
      * right. exists r, rel, desc. split; [right; exact Hr|]. auto.
    + intros [H|(r & rel & desc & [<-|Hr] & H1 & H2 & H)].
      * left; left; left; left; exact H.
      * rewrite Er in H1. injection H1 as <-. rewrite Ed in H2. injection H2 as <-. left.
        destruct H as [H|[H|H]]; [left; left; right|left; right|right]; exact H.
      * right. exists r, rel, desc. auto.
Qed.

Lemma in_add_questions : forall qs g idx t,
  In t (add_questions g idx qs) <->
  In t g \/ exists i q, nth_error qs i = Some q /\
    (t = (URIRef (WD ++ s2l "CompetencyQuestion_" ++ py_str_int (idx + i)), RDF_type,
          URIRef (SCHEMA ++ s2l "Question")) \/
     t = (URIRef (WD ++ s2l "CompetencyQuestion_" ++ py_str_int (idx + i)), RDFS_label,
          Literal q en) \/
     t = (doc_uri, URIRef (SCHEMA ++ s2l "hasPart"),
          URIRef (WD ++ s2l "CompetencyQuestion_" ++ py_str_int (idx + i)))).
Proof.
  induction qs as [|q0 qs IH]; intros g idx t; simpl.
  - split; [auto|]. intros [H|(i & q & Hi & _)]; [exact H|destruct i; discriminate].
  - rewrite IH, !in_graph_add. split.
    + intros [[[[H|H]|H]|H]|(i & q & Hi & H)].
      * left; exact H.
      * right. exists 0%nat, q0. rewrite Nat.add_0_r. split; [reflexivity|]. left; exact H.
      * right. exists 0%nat, q0. rewrite Nat.add_0_r. split; [reflexivity|].
        right; left; exact H.
      * right. exists 0%nat, q0. rewrite Nat.add_0_r. split; [reflexivity|].
        right; right; exact H.
      * right. exists (S i), q. rewrite Nat.add_succ_r. split; [exact Hi|exact H].
    + intros [H|([|i] & q & Hi & H)].
      * left; left; left; left; exact H.
      * simpl in Hi. injection Hi as <-. rewrite Nat.add_0_r in H. left.
        destruct H as [H|[H|H]]; [left; left; right|left; right|right]; exact H.
      * right. exists i, q. rewrite Nat.add_succ_r in H. split; [exact Hi|exact H].
Qed.

Lemma length_graph_add : forall g u, (List.length (graph_add g u) <= S (List.length g))%nat.
Proof.
  intros g u. unfold graph_add. destruct (existsb (triple_eqb u) g); [lia|].
  rewrite length_app. simpl. lia.
Qed.

Ltac graph_add_bound :=
  repeat match goal with
         | |- context [graph_add ?g ?u] =>
             let n := fresh "n" in
             pose proof (length_graph_add g u) as n;
             set (graph_add g u) in *
         | H : context [graph_add ?g ?u] |- _ =>
             let n := fresh "n" in
             pose proof (length_graph_add g u) as n;
             set (graph_add g u) in *
         end.

Lemma length_add_entities : forall ua es g,
  (List.length (add_entities ua g es) <= List.length g + 3 * List.length es)%nat.
Proof.
  intros ua. induction es as [|[e l] es IH]; intros g; simpl; [lia|].
  etransitivity; [apply IH|]. graph_add_bound. lia.
Qed.

Lemma length_add_relations : forall ua rs g g',
  add_relations ua g rs = Some g' ->
  (List.length g' <= List.length g + 3 * List.length rs)%nat.
Proof.
  intros ua. induction rs as [|r rs IH]; intros g g' E; simpl in E.
  - injection E as <-. lia.
  - destruct (dict_get r (s2l "relation")); [|discriminate].
    destruct (dict_get r (s2l "description")); [|discriminate].
    apply IH in E. simpl. etransitivity; [exact E|]. graph_add_bound. lia.
Qed.

Lemma length_add_questions : forall qs g idx,
  (List.length (add_questions g idx qs) <= List.length g + 3 * List.length qs)%nat.
Proof.
  induction qs as [|q qs IH]; intros g idx; simpl; [lia|].
  etransitivity; [apply IH|]. graph_add_bound. lia.
Qed.

Lemma add_relations_none : forall ua rs g,
  add_relations ua g rs = None <->
  exists r, In r rs /\ (dict_get r (s2l "relation") = None \/
                        dict_get r (s2l "description") = None).
Proof.
  intros ua. induction rs as [|r0 rs IH]; intros g; simpl.
  - split; [discriminate|]. intros (r & [] & _).
  - destruct (dict_get r0 (s2l "relation")) as [rel|] eqn:Er.
    + destruct (dict_get r0 (s2l "description")) as [desc|] eqn:Ed.
      * rewrite IH. split.
        -- intros (r & Hr & H). exists r. auto.
        -- intros (r & [<-|Hr] & H); [rewrite Er, Ed in H; destruct H; discriminate|].
           exists r. auto.
      * split; [intros _; exists r0; auto|reflexivity].
    + split; [intros _; exists r0; auto|reflexivity].
Qed.

(** The triples of the built graph are exactly: the document's type and
    label; for each entity its type, its label and the document's
    [mentions] link; for each relation record its type, label and comment;
    for the i-th question (from 0) the type and label of
    [CompetencyQuestion_{i+1}] and the document's [hasPart] link. *)
Theorem build_graph_triples : forall ua es rs qs g t,
  build_graph ua es rs qs = Some g ->
  (In t g <->
   t = (doc_uri, RDF_type, URIRef (SCHEMA ++ s2l "CreativeWork")) \/
   t = (doc_uri, RDFS_label, Literal (s2l "Source Document") en) \/
   (exists e l, In (e, l) es /\
    (t = (URIRef (WD ++ Sanitize.sanitize_uri ua e), RDF_type, URIRef (SCHEMA ++ l)) \/
     t = (URIRef (WD ++ Sanitize.sanitize_uri ua e), RDFS_label, Literal e en) \/
     t = (doc_uri, URIRef (SCHEMA ++ s2l "mentions"), URIRef (WD ++ Sanitize.sanitize_uri ua e)))) \/
   (exists r rel desc, In r rs /\ dict_get r (s2l "relation") = Some rel /\
     dict_get r (s2l "description") = Some desc /\
     (t = (URIRef (WDT ++ Sanitize.sanitize_uri ua rel), RDF_type,
           URIRef (SCHEMA ++ s2l "Property")) \/
      t = (URIRef (WDT ++ Sanitize.sanitize_uri ua rel), RDFS_label, Literal rel None) \/
      t = (URIRef (WDT ++ Sanitize.sanitize_uri ua rel), RDFS_comment, Literal desc None))) \/
   (exists i q, nth_error qs i = Some q /\
    (t = (URIRef (WD ++ s2l "CompetencyQuestion_" ++ py_str_int (S i)), RDF_type,
          URIRef (SCHEMA ++ s2l "Question")) \/
     t = (URIRef (WD ++ s2l "CompetencyQuestion_" ++ py_str_int (S i)), RDFS_label,
          Literal q en) \/
     t = (doc_uri, URIRef (SCHEMA ++ s2l "hasPart"),
          URIRef (WD ++ s2l "CompetencyQuestion_" ++ py_str_int (S i)))))).
Proof.
  intros ua es rs qs g t E. unfold build_graph in E.
  destruct (add_relations _ _ _) as [g3|] eqn:E3; [|discriminate].
  injection E as <-.
  rewrite in_add_questions, (in_add_relations _ _ _ _ t E3), in_add_entities, !in_graph_add.
  split.
  - intros [[[[[[]|H]|H]|H]|H]|H];
      [left|right; left|right; right; left|right; right; right; left
      |right; right; right; right]; exact H.
  - intros [H|[H|[H|[H|H]]]];
      [left; left; left; left; right|left; left; left; right|left; left; right
      |left; right|right]; exact H.
Qed.

Lemma build_graph_triples_witness :
  build_graph Sanitize.latin1_alnum KGProofs.scenario_entities KGProofs.scenario_relations
    KGProofs.scenario_questions = Some KGProofs.scenario_graph /\
  In (doc_uri, URIRef (SCHEMA ++ s2l "mentions"),
      URIRef (WD ++ Sanitize.sanitize_uri Sanitize.latin1_alnum (s2l "Douglas Adams")))
     KGProofs.scenario_graph.
Proof.
  assert (E : build_graph Sanitize.latin1_alnum KGProofs.scenario_entities
                KGProofs.scenario_relations KGProofs.scenario_questions
              = Some KGProofs.scenario_graph) by (vm_compute; reflexivity).
  split; [exact E|].
  apply (build_graph_triples _ _ _ _ _ _ E). right; right; left.
  exists (s2l "Douglas Adams"), (s2l "PERSON"). split; [left; reflexivity|].
  right; right; reflexivity.
Defined.

(** The built graph has no duplicate triple and at most 2 + 3 triples per
    entity, relation record and question (fewer when some coincide). *)
Theorem build_graph_size : forall ua es rs qs g,
  build_graph ua es rs qs = Some g ->
  NoDup g /\
  (List.length g <= 2 + 3 * (List.length es + List.length rs + List.length qs))%nat.
Proof.
  intros ua es rs qs g E. split; [exact (KGProofs.build_graph_nodup _ _ _ _ _ E)|].
  unfold build_graph in E.
  destruct (add_relations _ _ _) as [g3|] eqn:E3; [|discriminate].
  injection E as <-. apply length_add_relations in E3.
  pose proof (length_add_questions qs g3 1) as Hq.
  pose proof (length_add_entities ua es
                (graph_add (graph_add [] (doc_uri, RDF_type, URIRef (SCHEMA ++ s2l "CreativeWork")))
                   (doc_uri, RDFS_label, Literal (s2l "Source Document") en))) as He.
  graph_add_bound. simpl in *. lia.
Qed.

Lemma build_graph_size_witness :
  build_graph Sanitize.latin1_alnum KGProofs.scenario_entities KGProofs.scenario_relations
    KGProofs.scenario_questions = Some KGProofs.scenario_graph /\
  NoDup KGProofs.scenario_graph /\
  (List.length KGProofs.scenario_graph <= 2 + 3 * (1 + 1 + 1))%nat.
Proof.
  assert (E : build_graph Sanitize.latin1_alnum KGProofs.scenario_entities
                KGProofs.scenario_relations KGProofs.scenario_questions
              = Some KGProofs.scenario_graph) by (vm_compute; reflexivity).
  split; [exact E|]. exact (build_graph_size _ _ _ _ _ E).
Defined.

(** [build_knowledge_graph] raises [KeyError] exactly when some relation
    record lacks ['relation'] or ['description']. *)
Theorem build_graph_none : forall ua es rs qs,
  build_graph ua es rs qs = None <->
  exists r, In r rs /\ (dict_get r (s2l "relation") = None \/
                        dict_get r (s2l "description") = None).
Proof.
  intros ua es rs qs. unfold build_graph. rewrite <- (add_relations_none ua rs
    (add_entities ua (graph_add (graph_add [] (doc_uri, RDF_type, URIRef (SCHEMA ++ s2l "CreativeWork")))
                        (doc_uri, RDFS_label, Literal (s2l "Source Document") en)) es)).
  destruct (add_relations _ _ _); split; congruence.
Qed.

End KGMoreProofs.

Module CQProofs.
Import CQ.

Lemma questions_of_spec : forall uc es q,
  In q (questions_of uc es) <->
  exists e t, In (e, t) es /\ str_in t question_types = true /\ q = question uc e t.
Proof.
  intro uc. induction es as [|[e0 t0] es IH]; intro q; cbn [questions_of].
  - split; [intros []|intros (? & ? & [] & _)].
  - destruct (str_in t0 question_types) eqn:Et.
    + cbn [In]. rewrite IH. split.
      * intros [<-|(e & t & H1 & H2 & H3)].
        -- exists e0, t0. split; [left; reflexivity|auto].
        -- exists e, t. split; [right; exact H1|auto].
      * intros (e & t & [[= <- <-]|H1] & H2 & H3); [left; congruence|right; exists e, t; auto].
    + rewrite IH. split.
      * intros (e & t & H1 & H2 & H3). exists e, t. split; [right; exact H1|auto].
      * intros (e & t & [[= <- <-]|H1] & H2 & H3); [congruence|]. exists e, t. auto.
Qed.

Lemma length_questions_of : forall uc es,
  List.length (questions_of uc es)
  = List.length (filter (fun et => str_in (snd et) question_types) es).
Proof.
  intro uc. induction es as [|[e t] es IH]; cbn [questions_of filter]; [reflexivity|].
  change (snd (e, t)) with t.
  destruct (str_in t question_types); cbn [List.length]; rewrite IH; reflexivity.
Qed.

(** [questions[:max_questions]] is a prefix of the questions, one per
    entity of type [PERSON], [ORG], [GPE] or [DATE] in document order,
    each ["What is the <type in lowercase> of <entity>?"]. *)
Theorem generate_questions_prefix : forall uc es n,
  (exists rest, generate_questions uc es n ++ rest = questions_of uc es) /\
  forall q, In q (generate_questions uc es n) ->
    exists e t, In (e, t) es /\ str_in t question_types = true /\ q = question uc e t.
Proof.
  intros uc es n.
  assert (Hp : exists k, generate_questions uc es n = firstn k (questions_of uc es)).
  { unfold generate_questions, py_slice_to. destruct (0 <=? n); eauto. }
  destruct Hp as [k ->]. split.
  - exists (skipn k (questions_of uc es)). apply firstn_skipn.
  - intros q Hq. apply (proj1 (questions_of_spec uc es q)).
    rewrite <- (firstn_skipn k (questions_of uc es)). apply in_or_app. left. exact Hq.
Qed.

(** The number of questions: at most [max_questions] when it is not
    negative; a negative [max_questions] drops that many from the end. *)
Theorem generate_questions_length : forall uc es n,
  let c := List.length (filter (fun et => str_in (snd et) question_types) es) in
  List.length (generate_questions uc es n) =
  if 0 <=? n then Nat.min (Z.to_nat n) c else (c - Z.to_nat (- n))%nat.
Proof.
  intros uc es n c. unfold generate_questions, py_slice_to.
  destruct (Z.leb_spec 0 n); rewrite length_firstn, length_questions_of; fold c;
    [reflexivity|lia].
Qed.

End CQProofs.

Module SanitizeMoreProofs.
Import Sanitize.

Lemma lor_disjoint : forall j k m, 0 <= k -> 0 <= m < 2 ^ k ->
  Z.lor (Z.shiftl j k) m = Z.shiftl j k + m.
Proof.
  intros j k m Hk Hm.
  assert (H : Z.land (Z.shiftl j k) m = 0).
  { apply Z.bits_inj'. intros i Hi. rewrite Z.land_spec, Z.bits_0.
    destruct (Z.lt_ge_cases i k).
    - rewrite Z.shiftl_spec_low by lia. reflexivity.
    - rewrite <- (Z.mod_small m (2 ^ k)) by lia.
      rewrite Z.mod_pow2_bits_high by lia. apply andb_false_r. }
  rewrite (Z.add_nocarry_lxor _ _ H), (Z.lxor_lor _ _ H). reflexivity.
Qed.

Lemma utf8_cont : forall x, 128 <= Z.lor 128 (Z.land x 63) < 192.
Proof.
  intro x. change 63 with (Z.ones 6). rewrite Z.land_ones by lia.
  pose proof (Z.mod_pos_bound x (2 ^ 6) ltac:(lia)) as Hb.
  pose proof (lor_disjoint 2 6 (x mod 2 ^ 6) ltac:(lia) Hb) as E.
  change (Z.shiftl 2 6) with 128 in E. rewrite E. change (2 ^ 6) with 64 in *. lia.
Qed.

Ltac cont_tac :=
  match goal with |- context [Z.land ?x 63] => pose proof (utf8_cont x); lia end.

(** Every byte of the UTF-8 encoding of a code point from 128 up is a
    non-ASCII byte. *)
Lemma utf8_bytes_high : forall c, 128 <= c < 1114112 ->
  forall b, In b (utf8_encode_cp c) -> 128 <= b < 256.
Proof.
  intros c Hc b Hb. unfold utf8_encode_cp in Hb.
  destruct (Z.ltb_spec c 128); [lia|].
  destruct (Z.ltb_spec c 2048); [|destruct (Z.ltb_spec c 65536)].
  - destruct Hb as [<-|[<-|[]]]; [|cont_tac].
    rewrite Z.shiftr_div_pow2 by lia. change (2 ^ 6) with 64.
    pose proof (lor_disjoint 6 5 (c / 64) ltac:(lia)) as E.
    change (Z.shiftl 6 5) with 192 in E. change (2 ^ 5) with 32 in E.
    rewrite E by (split; [apply Z.div_pos|apply Z.div_lt_upper_bound]; lia).
    assert (0 <= c / 64 < 32) by (split; [apply Z.div_pos|apply Z.div_lt_upper_bound]; lia).
    lia.
  - destruct Hb as [<-|[<-|[<-|[]]]]; [|cont_tac|cont_tac].
    rewrite Z.shiftr_div_pow2 by lia. change (2 ^ 12) with 4096.
    pose proof (lor_disjoint 14 4 (c / 4096) ltac:(lia)) as E.
    change (Z.shiftl 14 4) with 224 in E. change (2 ^ 4) with 16 in E.
    assert (0 <= c / 4096 < 16) by (split; [apply Z.div_pos|apply Z.div_lt_upper_bound]; lia).
    rewrite E by lia. lia.
  - destruct Hb as [<-|[<-|[<-|[<-|[]]]]]; [|cont_tac|cont_tac|cont_tac].
    rewrite Z.shiftr_div_pow2 by lia. change (2 ^ 18) with 262144.
    pose proof (lor_disjoint 30 3 (c / 262144) ltac:(lia)) as E.
    change (Z.shiftl 30 3) with 240 in E. change (2 ^ 3) with 8 in E.
    assert (0 <= c / 262144 < 8) by (split; [apply Z.div_pos|apply Z.div_lt_upper_bound]; lia).
    rewrite E by lia. lia.
Qed.

Lemma hexdig_alnum : forall n, 0 <= n < 16 -> ascii_alnum (hexdig n) = true.
Proof.
  intros n Hn. unfold hexdig, ascii_alnum. destruct (Z.ltb_spec n 10).
  - rewrite (proj2 (Z.leb_le 48 (48 + n))), (proj2 (Z.leb_le (48 + n) 57)) by lia.
    reflexivity.
  - rewrite (proj2 (Z.leb_le 65 (55 + n))), (proj2 (Z.leb_le (55 + n) 90)) by lia.
    rewrite orb_true_r. reflexivity.
Qed.

Lemma nibbles : forall b, 0 <= b < 256 ->
  0 <= Z.shiftr b 4 < 16 /\ 0 <= Z.land b 15 < 16.
Proof.
  intros b Hb. rewrite Z.shiftr_div_pow2 by lia. change (2 ^ 4) with 16.
  change 15 with (Z.ones 4). rewrite Z.land_ones by lia. change (2 ^ 4) with 16.
  split; [split; [apply Z.div_pos|apply Z.div_lt_upper_bound]; lia|].
  apply Z.mod_pos_bound. lia.
Qed.

Lemma quote_byte_high : forall b, 128 <= b < 256 ->
  quote_byte b = [37; hexdig (Z.shiftr b 4); hexdig (Z.land b 15)].
Proof.
  intros b Hb. unfold quote_byte, always_safe, ascii_alnum.
  rewrite (proj2 (Z.leb_gt b 57)), (proj2 (Z.leb_gt b 90)), (proj2 (Z.leb_gt b 122)) by lia.
  rewrite (proj2 (Z.eqb_neq b 95)), (proj2 (Z.eqb_neq b 46)), (proj2 (Z.eqb_neq b 45)),
    (proj2 (Z.eqb_neq b 126)) by lia.
  rewrite !andb_false_r. reflexivity.
Qed.

Lemma quote_byte_no_us : forall b, 0 <= b < 256 -> b <> 95 ->
  quote_byte b <> [] /\ ~ In 95 (quote_byte b).
Proof.
  intros b Hb Hne. destruct (nibbles b Hb) as [H1 H2].
  pose proof (hexdig_alnum _ H1) as A1. pose proof (hexdig_alnum _ H2) as A2.
  unfold quote_byte. destruct (always_safe b).
  - split; [discriminate|]. intros [E|[]]. congruence.
  - split; [discriminate|]. intros [E|[E|[E|[]]]]; [discriminate| |];
      [rewrite E in A1|rewrite E in A2]; discriminate.
Qed.

Lemma sub_nonword_in : forall ua s c,
  In c (sub_nonword ua s) -> c = 95 \/ (In c s /\ (is_word ua c || (c =? 45)) = true).
Proof.
  intros ua s c H. unfold sub_nonword in H. apply in_map_iff in H as (c0 & E & Hc0).
  destruct (is_word ua c0 || (c0 =? 45)) eqn:W; [subst; right; auto|left; congruence].
Qed.

Lemma sub_runs_in : forall b s c, In c (sub_runs b s) -> In c s.
Proof.
  intros b s. revert b. induction s as [|c0 t IH]; intros b c H; simpl in H; [exact H|].
  destruct (Z.eqb_spec c0 95); [destruct b|].
  - right. exact (IH _ _ H).
  - destruct H as [<-|H]; [left; congruence|right; exact (IH _ _ H)].
  - destruct H as [<-|H]; [left; reflexivity|right; exact (IH _ _ H)].
Qed.

(** A code point from the sanitized stream is an underscore, or an input
    character that is a word character or a hyphen. *)
Lemma sanitized_cp : forall ua x c,
  In c (sub_runs false (sub_nonword ua x)) ->
  c = 95 \/ (In c x /\ (is_word ua c || (c =? 45)) = true).
Proof. intros ua x c H. apply sub_runs_in in H. exact (sub_nonword_in ua x c H). Qed.

(** "No underscore right after an underscore", scanning left to right;
    [prev] says that the previous character was an underscore. *)
Fixpoint no_uu_from (prev : bool) (l : list Z) : bool :=
  match l with
  | [] => true
  | c :: t => if c =? 95 then negb prev && no_uu_from true t else no_uu_from false t
  end.

Lemma no_uu_from_app : forall a b p,
  no_uu_from p (a ++ b) =
  no_uu_from p a && no_uu_from (fold_left (fun _ x => x =? 95) a p) b.
Proof.
  induction a as [|c a IH]; intros b p; [reflexivity|].
  simpl. destruct (c =? 95); rewrite IH; [apply andb_assoc|reflexivity].
Qed.

Lemma no_uu_from_plain : forall a p, a <> [] -> ~ In 95 a ->
  no_uu_from p a = true /\ fold_left (fun _ x => x =? 95) a p = false.
Proof.
  induction a as [|c a IH]; intros p Hne Hn; [congruence|].
  simpl. destruct (Z.eqb_spec c 95) as [E|E]; [exfalso; apply Hn; left; congruence|].
  destruct a as [|c' a']; [split; reflexivity|].
  apply IH; [discriminate|]. intro H. apply Hn. right. exact H.
Qed.

Lemma no_uu_flat_map : forall f, f 95 = [95] ->
  forall l p, (forall c, In c l -> c <> 95 -> f c <> [] /\ ~ In 95 (f c)) ->
  no_uu_from p l = true -> no_uu_from p (flat_map f l) = true.
Proof.
  intros f Hf. induction l as [|c t IH]; intros p Hl H; [reflexivity|].
  simpl. rewrite no_uu_from_app.
  assert (Ht : forall c0, In c0 t -> c0 <> 95 -> f c0 <> [] /\ ~ In 95 (f c0))
    by (intros c0 Hc0; apply Hl; right; exact Hc0).
  simpl in H. destruct (Z.eqb_spec c 95) as [->|E].
  - rewrite Hf. simpl. apply andb_prop in H as [H1 H2]. rewrite H1. simpl. apply IH; assumption.
  - destruct (Hl c (or_introl eq_refl) E) as [Hne Hn].
    destruct (no_uu_from_plain (f c) p Hne Hn) as [-> ->]. simpl. apply IH; assumption.
Qed.

Lemma sub_runs_no_uu : forall b s, no_uu_from b (sub_runs b s) = true.
Proof.
  intros b s. revert b. induction s as [|c t IH]; intro b; [reflexivity|].
  simpl. destruct (Z.eqb_spec c 95).
  - destruct b; [apply IH|]. simpl. apply IH.
  - simpl. rewrite (proj2 (Z.eqb_neq c 95) n). apply IH.
Qed.

Lemma no_uu_nth : forall l p, no_uu_from p l = true ->
  forall i, nth_error l i = Some 95 -> nth_error l (S i) <> Some 95.
Proof.
  induction l as [|c t IH]; intros p H i Hi; [destruct i; discriminate|].
  destruct i as [|i].
  - simpl in Hi. injection Hi as ->. simpl. intro Ht.
    destruct t as [|c' t]; [discriminate|]. simpl in Ht. injection Ht as ->.
    simpl in H. rewrite andb_false_r in H. discriminate.
  - simpl in Hi |- *. simpl in H.
    destruct (c =? 95); [apply andb_prop in H as [_ H]|]; exact (IH _ H i Hi).
Qed.

(** The output of [sanitize_uri] on a string of Unicode code points is
    ASCII: letters, digits, [_], [-] and the [%] of percent-escapes (whose
    digits are upper-case hexadecimal). *)
Theorem sanitize_uri_charset : forall ua x,
  (forall c, In c x -> 0 <= c < 1114112) ->
  forall c, In c (sanitize_uri ua x) ->
    ascii_alnum c = true \/ c = 95 \/ c = 45 \/ c = 37.
Proof.
  intros ua x Hx c H. unfold sanitize_uri, quote in H.
  apply in_flat_map in H as (b & Hb & Hc). apply in_flat_map in Hb as (c0 & Hc0 & Hb).
  apply sanitized_cp in Hc0 as [->|[Hin Hw]].
  - simpl in Hb. destruct Hb as [<-|[]]. simpl in Hc. destruct Hc as [<-|[]]. auto.
  - destruct (Z.ltb_spec c0 128).
    + unfold utf8_encode_cp in Hb. rewrite (proj2 (Z.ltb_lt c0 128) H) in Hb.
      destruct Hb as [<-|[]].
      unfold is_word in Hw. rewrite (proj2 (Z.leb_gt 128 c0) H) in Hw. simpl in Hw.
      unfold quote_byte, always_safe in Hc.
      destruct (ascii_alnum c0) eqn:A; [simpl in Hc; destruct Hc as [<-|[]]; auto|].
      destruct (Z.eqb_spec c0 95); [simpl in Hc; destruct Hc as [<-|[]]; auto|].
      destruct (Z.eqb_spec c0 45); [|discriminate].
      rewrite !orb_true_r in Hc. destruct Hc as [<-|[]]. auto.
    + assert (Hr : 128 <= b < 256) by (apply (utf8_bytes_high c0); [specialize (Hx c0 Hin); lia|exact Hb]).
      rewrite (quote_byte_high b Hr) in Hc. destruct (nibbles b ltac:(lia)) as [N1 N2].
      destruct Hc as [<-|[<-|[<-|[]]]]; [auto|left; apply hexdig_alnum, N1|left; apply hexdig_alnum, N2].
Qed.

Lemma sanitize_uri_charset_witness :
  (forall c, In c [233; 32; 95; 95; 97] -> 0 <= c < 1114112) /\
  sanitize_uri latin1_alnum [233; 32; 95; 95; 97] = s2l "%C3%A9_a" /\
  forall c, In c (sanitize_uri latin1_alnum [233; 32; 95; 95; 97]) ->
    ascii_alnum c = true \/ c = 95 \/ c = 45 \/ c = 37.
Proof.
  assert (H : forall c, In c [233; 32; 95; 95; 97] -> 0 <= c < 1114112).
  { intros c Hc. repeat (destruct Hc as [<-|Hc]; [lia|]). destruct Hc. }
  split; [exact H|]. split; [reflexivity|]. exact (sanitize_uri_charset latin1_alnum _ H).
Defined.

(** The output of [sanitize_uri] never has two consecutive underscores: an
    underscore only comes from an underscore of the collapsed stream, and
    no byte or escape ends or starts with one. *)
Theorem sanitize_uri_no_double_underscore : forall ua x,
  (forall c, In c x -> 0 <= c < 1114112) ->
  forall i, nth_error (sanitize_uri ua x) i = Some 95 ->
    nth_error (sanitize_uri ua x) (S i) <> Some 95.
Proof.
  intros ua x Hx. apply (no_uu_nth _ false). unfold sanitize_uri, quote.
  assert (Hcp : forall c, In c (sub_runs false (sub_nonword ua x)) -> 0 <= c < 1114112).
  { intros c Hc. apply sanitized_cp in Hc as [->|[Hc _]]; [lia|exact (Hx c Hc)]. }
  apply no_uu_flat_map; [reflexivity| |].
  - intros b Hb Hne. apply in_flat_map in Hb as (c0 & Hc0 & Hb).
    apply quote_byte_no_us; [|exact Hne].
    destruct (Z.ltb_spec c0 128).
    + unfold utf8_encode_cp in Hb. rewrite (proj2 (Z.ltb_lt c0 128) H) in Hb.
      destruct Hb as [<-|[]]. specialize (Hcp c0 Hc0). lia.
    + pose proof (utf8_bytes_high c0 ltac:(specialize (Hcp c0 Hc0); lia) b Hb). lia.
  - apply no_uu_flat_map; [reflexivity| |apply sub_runs_no_uu].
    intros c Hc Hne. destruct (Z.ltb_spec c 128).
    + unfold utf8_encode_cp. rewrite (proj2 (Z.ltb_lt c 128) H).
      split; [discriminate|]. intros [E|[]]. congruence.
    + split; [unfold utf8_encode_cp; destruct (c <? 128), (c <? 2048), (c <? 65536); discriminate|].
      intro Hin. pose proof (utf8_bytes_high c ltac:(specialize (Hcp c Hc); lia) 95 Hin). lia.
Qed.

Lemma sanitize_uri_no_double_underscore_witness :
  (forall c, In c [233; 32; 95; 95; 97] -> 0 <= c < 1114112) /\
  nth_error (sanitize_uri latin1_alnum [233; 32; 95; 95; 97]) 6 = Some 95 /\
  nth_error (sanitize_uri latin1_alnum [233; 32; 95; 95; 97]) 7 <> Some 95.
Proof.
  assert (H : forall c, In c [233; 32; 95; 95; 97] -> 0 <= c < 1114112).
  { intros c Hc. repeat (destruct Hc as [<-|Hc]; [lia|]). destruct Hc. }
  assert (E : nth_error (sanitize_uri latin1_alnum [233; 32; 95; 95; 97]) 6 = Some 95)
    by reflexivity.
  split; [exact H|]. split; [exact E|].
  exact (sanitize_uri_no_double_underscore latin1_alnum _ H 6 E).
Defined.

End SanitizeMoreProofs.

Module VisualizeProofs.
Import Sanitize Visualize.

Definition starts_nonspace (l : list Z) : Prop :=
  match l with c :: _ => py_isspace c = false | [] => True end.

Lemma drop_space_head : forall l, starts_nonspace (drop_space l).
Proof.
  induction l as [|c t IH]; simpl; [exact I|].
  destruct (py_isspace c) eqn:E; [exact IH|exact E].
Qed.

Lemma drop_space_id : forall l, starts_nonspace l -> drop_space l = l.
Proof. intros [|c t] H; simpl in *; [reflexivity|]. rewrite H. reflexivity. Qed.

Lemma drop_space_suffix : forall l, exists pre, l = pre ++ drop_space l.
Proof.
  induction l as [|c t [pre IH]]; simpl; [exists []; reflexivity|].
  destruct (py_isspace c); [exists (c :: pre); simpl; f_equal; exact IH|exists []; reflexivity].
Qed.

Lemma in_drop_space : forall l c, In c (drop_space l) -> In c l.
Proof.
  intros l c H. destruct (drop_space_suffix l) as [pre E]. rewrite E.
  apply in_or_app. right. exact H.
Qed.

Lemma in_py_strip : forall s c, In c (py_strip s) -> In c s.
Proof.
  intros s c H. unfold py_strip in H. apply in_rev in H.
  apply in_drop_space, in_rev, in_drop_space in H. exact H.
Qed.

(** The first and the last character of [s.strip()] are not white space. *)
Lemma py_strip_ends : forall s,
  starts_nonspace (py_strip s) /\ starts_nonspace (rev (py_strip s)).
Proof.
  intro s. unfold py_strip. rewrite rev_involutive. split; [|apply drop_space_head].
  pose proof (drop_space_head s) as Hd. remember (drop_space s) as d eqn:Ed. clear Ed.
  destruct (drop_space_suffix (rev d)) as [pre E].
  destruct (drop_space (rev d)) as [|z zs] eqn:Eds; [exact I|].
  destruct (exists_last (l := z :: zs) ltac:(discriminate)) as (ds & x & Ex).
  rewrite Ex. rewrite rev_app_distr. simpl.
  rewrite Ex, app_assoc in E. apply (f_equal (@rev Z)) in E.
  rewrite rev_involutive, rev_app_distr in E. simpl in E.
  destruct d as [|y d']; [discriminate|]. injection E as <- _. exact Hd.
Qed.

Lemma py_strip_idem : forall s, py_strip (py_strip s) = py_strip s.
Proof.
  intro s. destruct (py_strip_ends s) as [H1 H2].
  unfold py_strip at 1. rewrite (drop_space_id _ H1), (drop_space_id _ H2).
  apply rev_involutive.
Qed.

Lemma prefixb_in : forall p s c, prefixb p s = true -> In c p -> In c s.
Proof.
  induction p as [|x p IH]; intros [|y s] c H Hc; simpl in *; try discriminate; try contradiction.
  apply andb_prop in H as [H1 H2]. apply Z.eqb_eq in H1. subst y.
  destruct Hc as [<-|Hc]; [left; reflexivity|right; exact (IH s c H2 Hc)].
Qed.

Lemma filter_all : forall (f : Z -> bool) l, (forall x, In x l -> f x = true) -> filter f l = l.
Proof.
  intros f. induction l as [|x l IH]; intro H; simpl; [reflexivity|].
  rewrite (H x (or_introl eq_refl)). f_equal. apply IH. intros y Hy. apply H. right. exact Hy.
Qed.

Lemma sub_tail_id : forall s, ~ In 62 s -> sub_tail s = s.
Proof.
  intros s H. unfold sub_tail. destruct (rev s) as [|c r] eqn:E.
  - apply (f_equal (@rev Z)) in E. rewrite rev_involutive in E. exact (eq_sym E).
  - assert (Hc : In c s) by (apply in_rev; rewrite E; left; reflexivity).
    destruct (Z.eqb_spec c 62); [subst; contradiction|].
    destruct (c =? 10); [|reflexivity].
    destruct r as [|d r']; [reflexivity|].
    assert (Hd : In d s) by (apply in_rev; rewrite E; right; left; reflexivity).
    destruct (Z.eqb_spec d 62); [subst; contradiction|reflexivity].
Qed.

Lemma clean_uri_chars : forall ua uri c,
  In c (clean_uri ua uri) -> c <> 95 /\ (is_word ua c || py_isspace c) = true.
Proof.
  intros ua uri c H. unfold clean_uri in H. apply in_py_strip in H.
  unfold keep_word_space in H. apply filter_In in H as [H Hw]. split; [|exact Hw].
  unfold replace_us in H. apply in_map_iff in H as (c0 & E & _). subst c.
  destruct (Z.eqb_spec c0 95) as [_|Hn]; [discriminate|exact Hn].
Qed.

(** [clean_uri] returns a string of word characters and white space with no
    underscore left and no white space at either end. *)
Theorem clean_uri_shape : forall ua uri,
  (forall c, In c (clean_uri ua uri) -> c <> 95 /\ (is_word ua c || py_isspace c) = true) /\
  (forall c t, clean_uri ua uri = c :: t -> py_isspace c = false) /\
  (forall t c, clean_uri ua uri = t ++ [c] -> py_isspace c = false).
Proof.
  intros ua uri. split; [apply clean_uri_chars|].
  destruct (py_strip_ends (keep_word_space ua (replace_us (sub_tail (sub_head uri)))))
    as [H1 H2].
  fold (clean_uri ua uri) in H1, H2. split.
  - intros c t E. rewrite E in H1. exact H1.
  - intros t c E. rewrite E, rev_app_distr in H2. exact H2.
Qed.

(** [clean_uri] is idempotent: a cleaned name has no ['<'], ['>'], [':'] or
    ['_'] and no white space at its ends, so cleaning it again changes
    nothing. *)
Theorem clean_uri_idempotent : forall ua uri,
  clean_uri ua (clean_uri ua uri) = clean_uri ua uri.
Proof.
  intros ua uri.
  assert (Hy : forall c, In c (clean_uri ua uri) ->
                 c <> 95 /\ (is_word ua c || py_isspace c) = true)
    by apply clean_uri_chars.
  remember (clean_uri ua uri) as y eqn:Ey.
  assert (Hno : forall c, (is_word ua c || py_isspace c) = false -> ~ In c y).
  { intros c Hc Hin. apply Hy in Hin as [_ Hin]. congruence. }
  assert (Hhead : sub_head y = y).
  { unfold sub_head.
    assert (E1 : match y with c :: t => if c =? 60 then t else y | [] => [] end = y).
    { destruct y as [|c t]; [reflexivity|].
      destruct (Z.eqb_spec c 60); [|reflexivity].
      exfalso. subst c. apply (Hno 60 eq_refl). left. reflexivity. }
    rewrite E1. destruct (prefixb wd_prefix y) eqn:Ep; [|reflexivity].
    exfalso. apply (Hno 58 eq_refl). apply (prefixb_in wd_prefix y 58 Ep).
    unfold wd_prefix. simpl. tauto. }
  assert (Htail : sub_tail y = y) by (apply sub_tail_id, Hno; reflexivity).
  assert (Hus : replace_us y = y).
  { unfold replace_us. rewrite <- (map_id y) at 2. apply map_ext_in.
    intros c Hc. destruct (Z.eqb_spec c 95); [|reflexivity]. exfalso. exact (proj1 (Hy c Hc) e). }
  assert (Hkeep : keep_word_space ua y = y)
    by (apply filter_all; intros c Hc; exact (proj2 (Hy c Hc))).
  unfold clean_uri at 1. rewrite Hhead, Htail, Hus, Hkeep.
  subst y. apply py_strip_idem.
Qed.

End VisualizeProofs.
